(** * Book Tracer: the data and enrichment layer of [main.cpp]

    A shallow embedding of the console book tracer: progress metrics, the
    ISBN codec, the metadata lookup chain, the SQLite-backed record store,
    the CSV bulk transfer, the start-up checks and the console flows that
    read numbers only, followed by the properties established for them.

    Conventions.
    - [std::string] is a list of bytes ([list ascii]); [lit "..."] writes a
      literal.
    - A C++ [int] is a [Z] in the 32-bit range; arithmetic that the source
      performs on [int] wraps around through [wrap32].
    - The SQLite engine, the file system and the network are outside the
      program.  What they answer is an input of the model: a result code for
      each statement, the content of a file, the body of each response.
    - Text in the database is UTF-8: the [LIKE] operator reads it character
      by character, the SQL function [lower] byte by byte. *)

From Stdlib Require Import ZArith Ascii String List Lia Bool DecimalZ Sorted Permutation.
From stdpp Require Import base option list strings gmap.

Local Open Scope Z_scope.
Local Open Scope list_scope.

(* ===================================================================== *)
(** * Bytes, strings and machine integers *)
(* ===================================================================== *)

Definition str := list ascii.

Definition lit (s : string) : str := list_ascii_of_string s.

(** The numeric value of a byte, as [unsigned char]. *)
Definition code (c : ascii) : Z := Z.of_N (N_of_ascii c).

Definition ch (c d : ascii) : bool := Ascii.eqb c d.

(** [std::isdigit], [std::isspace] and [std::tolower] in the C locale. *)
Definition isdigit (c : ascii) : bool := (48 <=? code c) && (code c <=? 57).

Definition isspace (c : ascii) : bool :=
  (code c =? 32) || ((9 <=? code c) && (code c <=? 13)).

Definition tolower (c : ascii) : ascii :=
  if (65 <=? code c) && (code c <=? 90)
  then ascii_of_N (Z.to_N (code c + 32))
  else c.

Definition lower (s : str) : str := map tolower s.

(** [c - '0'] on a [char]: the operands are promoted to [int]; [char] is
    signed on the platforms the program targets. *)
Definition char_minus_zero (c : ascii) : Z :=
  (if code c <? 128 then code c else code c - 256) - 48.

Definition INT_MAX : Z := 2147483647.
Definition INT_MIN : Z := -2147483648.

Definition is_int (z : Z) : Prop := INT_MIN <= z <= INT_MAX.

Definition is_intb (z : Z) : bool := (INT_MIN <=? z) && (z <=? INT_MAX).

(** Two's complement wrap-around of a 32-bit [int]. *)
Definition wrap32 (z : Z) : Z := (z + 2147483648) mod 4294967296 - 2147483648.

(** [std::max], [std::clamp] on [int]. *)
Definition std_max (a b : Z) : Z := if a <? b then b else a.

Definition std_clamp (v lo hi : Z) : Z :=
  if v <? lo then lo else if hi <? v then hi else v.

(** ** Decimal output: [std::to_string(int)] and [ostream << int] *)

Fixpoint uint_chars (d : Decimal.uint) : str :=
  match d with
  | Decimal.Nil => []
  | Decimal.D0 r => "0"%char :: uint_chars r
  | Decimal.D1 r => "1"%char :: uint_chars r
  | Decimal.D2 r => "2"%char :: uint_chars r
  | Decimal.D3 r => "3"%char :: uint_chars r
  | Decimal.D4 r => "4"%char :: uint_chars r
  | Decimal.D5 r => "5"%char :: uint_chars r
  | Decimal.D6 r => "6"%char :: uint_chars r
  | Decimal.D7 r => "7"%char :: uint_chars r
  | Decimal.D8 r => "8"%char :: uint_chars r
  | Decimal.D9 r => "9"%char :: uint_chars r
  end.

Definition to_string (z : Z) : str :=
  match Z.to_int z with
  | Decimal.Pos d => uint_chars d
  | Decimal.Neg d => "-"%char :: uint_chars d
  end.

(** ** Decimal input: [std::stoi]

    [std::stoi] skips leading white space, reads an optional sign and the
    longest run of digits, and throws when there is no digit
    ([invalid_argument]) or when the value does not fit an [int]
    ([out_of_range]).  [None] stands for the exception. *)

Fixpoint skip_space (s : str) : str :=
  match s with
  | c :: r => if isspace c then skip_space r else s
  | [] => []
  end.

Fixpoint take_digits (s : str) : str :=
  match s with
  | c :: r => if isdigit c then c :: take_digits r else []
  | [] => []
  end.

Definition digits_value (ds : str) : Z :=
  fold_left (fun acc c => 10 * acc + (code c - 48)) ds 0.

Definition stoi (s : str) : option Z :=
  let s1 := skip_space s in
  let '(neg, s2) :=
    match s1 with
    | c :: r => if ch c "-" then (true, r)
                else if ch c "+" then (false, r) else (false, s1)
    | [] => (false, s1)
    end in
  match take_digits s2 with
  | [] => None
  | ds => let v := if neg then - digits_value ds else digits_value ds in
          if is_intb v then Some v else None
  end.

(** [const char*] view of a string handed to a C interface with length
    [-1]: the bytes before the first NUL. *)
Fixpoint c_str (s : str) : str :=
  match s with
  | c :: r => if ch c zero then [] else c :: c_str r
  | [] => []
  end.

(** [haystack.find(needle) != npos]. *)
Fixpoint is_prefix (p s : str) : bool :=
  match p, s with
  | [], _ => true
  | a :: p', b :: s' => ch a b && is_prefix p' s'
  | _ :: _, [] => false
  end.

Fixpoint str_contains (needle s : str) : bool :=
  is_prefix needle s ||
  match s with
  | [] => false
  | _ :: s' => str_contains needle s'
  end.

(* ===================================================================== *)
(** * Records and progress metrics *)
(* ===================================================================== *)

(** [struct Book]; [status] is 0 To-Read, 1 Reading, 2 Finished. *)
Record Book := mkBook {
  id : Z;
  title : str;
  author : str;
  totalPages : Z;
  currentPage : Z;
  status : Z;
  isbn : str
}.

Inductive Status := ToRead | Reading | Finished.

Definition status_code (s : Status) : Z :=
  match s with ToRead => 0 | Reading => 1 | Finished => 2 end.

(** [daysToFinish]: [std::nullopt] is [None].  The subtraction and the
    rounding addition are [int] operations, the division truncates. *)
Definition daysToFinish (b : Book) (dailyRate : Z) : option Z :=
  if (dailyRate <=? 0) || (totalPages b <=? currentPage b) then None
  else
    let remaining := wrap32 (totalPages b - currentPage b) in
    Some (Z.quot (wrap32 (wrap32 (remaining + dailyRate) - 1)) dailyRate).

(** The mathematical ceiling of [a / b] for [b > 0], as the specification
    words it. *)
Definition ceil_div (a b : Z) : Z := - ((- a) / b).

(* ===================================================================== *)
(** * ISBN utilities *)
(* ===================================================================== *)

Definition onlyDigitsX (s : str) : str :=
  fold_left
    (fun t c =>
       if isdigit c || ch c "X" || ch c "x"
       then t ++ [if ch c "x" then "X"%char else c]
       else t)
    s [].

Definition isIsbn10 (s : str) : bool := (length s =? 10)%nat.
Definition isIsbn13 (s : str) : bool := (length s =? 13)%nat.

(** The loop of [isbn10to13], with its index and its running sum. *)
Definition isbn_sum_step (st : Z * Z) (c : ascii) : Z * Z :=
  let '(i, sum) := st in
  let d := char_minus_zero c in
  (i + 1, wrap32 (sum + (if Z.rem i 2 =? 0 then d else wrap32 (3 * d)))).

Definition isbn10to13 (s10 : str) : str :=
  let core := lit "978" ++ take 9 s10 in
  let sum := snd (fold_left isbn_sum_step core (0, 0)) in
  let cd := Z.rem (10 - Z.rem sum 10) 10 in
  core ++ to_string cd.

Definition normalizeIsbn (s_in : str) : str :=
  let s := onlyDigitsX s_in in
  if isIsbn13 s then s
  else if isIsbn10 s then isbn10to13 s
  else [].

(** ** The codec as the specification words it *)

Definition keeps (c : ascii) : bool := isdigit c || ch c "X" || ch c "x".

Definition fold_x (c : ascii) : ascii := if ch c "x" then "X"%char else c.

Definition cleaned (raw : str) : str := map fold_x (List.filter keeps raw).

(** Weight 1 on even zero-based positions and 3 on odd ones. *)
Fixpoint weighted_sum (w w' : Z) (s : str) : Z :=
  match s with
  | [] => 0
  | c :: r => w * (code c - 48) + weighted_sum w' w r
  end.

Definition check_digit (core : str) : Z :=
  (10 - weighted_sum 1 3 core mod 10) mod 10.

Definition digit_char (d : Z) : ascii := ascii_of_N (Z.to_N (48 + d)).

Definition normalize_spec (raw : str) : str :=
  let s := cleaned raw in
  if decide (length s = 13%nat) then s
  else if decide (length s = 10%nat)
       then lit "978" ++ take 9 s ++ [digit_char (check_digit (lit "978" ++ take 9 s))]
       else [].

(* ===================================================================== *)
(** * Metadata lookup chain *)
(* ===================================================================== *)

(** A parsed JSON document ([nlohmann::json]). *)
#[warnings="-register-all"] Inductive json :=
| JNull
| JBool (b : bool)
| JNum (n : Z)
| JStr (s : str)
| JArr (items : list json)
| JObj (members : list (string * json)).

Fixpoint assoc (k : string) (kv : list (string * json)) : option json :=
  match kv with
  | [] => None
  | (k', v) :: r => if String.eqb k k' then Some v else assoc k r
  end.

(** [j.contains(key)]: false on anything but an object. *)
Definition j_contains (j : json) (k : string) : bool :=
  match j with
  | JObj kv => match assoc k kv with Some _ => true | None => false end
  | _ => false
  end.

(** [j[key]] on a non-const value: a missing member of an object, or any
    member of [null], is created as [null]; other types throw. *)
Definition j_at (j : json) (k : string) : option json :=
  match j with
  | JObj kv => Some (default JNull (assoc k kv))
  | JNull => Some JNull
  | _ => None
  end.

(** [j[0]] on an array known to be non-empty. *)
Definition j_first (j : json) : option json :=
  match j with
  | JArr (x :: _) => Some x
  | _ => None
  end.

Definition j_is_array (j : json) : bool :=
  match j with JArr _ => true | _ => false end.

(** [j.empty()]. *)
Definition j_empty (j : json) : bool :=
  match j with
  | JNull => true
  | JArr [] => true
  | JObj [] => true
  | _ => false
  end.

(** [j.get<std::string>()]: throws unless the value is a string. *)
Definition j_get_string (j : json) : option str :=
  match j with JStr s => Some s | _ => None end.

Record LookupResult := mkLookup { lr_title : str; lr_author : str }.

Definition nonempty (s : str) : bool :=
  match s with [] => false | _ => true end.

(** Outbound requests are the only effect of the chain.  A computation
    threads the log of the URLs fetched so far. *)
Definition Net (A : Type) : Type := list str -> A * list str.

Definition net_ret {A : Type} (a : A) : Net A := fun log => (a, log).

Definition net_bind {A B : Type} (m : Net A) (k : A -> Net B) : Net B :=
  fun log => let '(a, log') := m log in k a log'.

Notation "'do' x <- m ; k" := (net_bind m (fun x => k))
  (at level 10, x name, m at level 100, k at level 200).

Definition run_net {A : Type} (m : Net A) : A * list str := m [].

Section LookupChain.

(** What the network answers to a GET ([None]: transport error or a
    status outside 2xx), what [nlohmann::json::parse] makes of a body
    ([None]: it throws), and the environment variable holding the key. *)
Variable http_response : str -> option str.
Variable json_parse : str -> option json.
Variable GOOGLE_BOOKS_API_KEY : option str.

Definition httpGet (url : str) : Net (option str) :=
  fun log => (http_response url, log ++ [url]).

Definition openLibraryUrl (isbn13 : str) : str :=
  lit "https://openlibrary.org/isbn/" ++ isbn13 ++ lit ".json".

Definition googleBooksUrl (isbn13 : str) : str :=
  lit "https://www.googleapis.com/books/v1/volumes?q=isbn:" ++ isbn13 ++
  match GOOGLE_BOOKS_API_KEY with
  | Some (c :: k) => lit "&key=" ++ c :: k
  | _ => []
  end.

(** The body of the first [try] block: [None] when an exception is
    thrown, otherwise the record [r] as filled in. *)
Definition openLibraryRecord (body : str) : option LookupResult :=
  j ← json_parse body;
  t ← (if j_contains j "title" then j_at j "title" ≫= j_get_string else Some []);
  a ← (if j_contains j "by_statement"
       then j_at j "by_statement" ≫= j_get_string else Some []);
  Some (mkLookup t a).

(** The body of the second [try] block: [None] when an exception is
    thrown or the [items] test fails. *)
Definition googleBooksRecord (body : str) : option LookupResult :=
  j ← json_parse body;
  if j_contains j "items"
  then
    items ← j_at j "items";
    if j_is_array items && negb (j_empty items)
    then
      vi ← j_first items ≫= (fun e => j_at e "volumeInfo");
      t ← (if j_contains vi "title"
           then j_at vi "title" ≫= j_get_string else Some []);
      a ← (if j_contains vi "authors"
           then
             authors ← j_at vi "authors";
             if j_is_array authors && negb (j_empty authors)
             then j_first authors ≫= j_get_string
             else Some []
           else Some []);
      Some (mkLookup t a)
    else None
  else None.

Definition accept_primary (r : LookupResult) : bool := nonempty (lr_title r).

Definition accept_secondary (r : LookupResult) : bool :=
  nonempty (lr_title r) || nonempty (lr_author r).

(** The two stages of [lookupIsbn]: each fetches one URL and yields the
    record it returns from, if any. *)
Definition primary_stage (isbn13 : str) : Net (option LookupResult) :=
  do body <- httpGet (openLibraryUrl isbn13);
  net_ret (match body ≫= openLibraryRecord with
           | Some r => if accept_primary r then Some r else None
           | None => None
           end).

Definition secondary_stage (isbn13 : str) : Net (option LookupResult) :=
  do body <- httpGet (googleBooksUrl isbn13);
  net_ret (match body ≫= googleBooksRecord with
           | Some r => if accept_secondary r then Some r else None
           | None => None
           end).

(** [lookupIsbn], with the global [g_useGoogleBooks] as a parameter. *)
Definition lookupIsbn (g_useGoogleBooks : bool) (rawIsbn : str)
  : Net (option LookupResult) :=
  let isbn13 := normalizeIsbn rawIsbn in
  if negb (nonempty isbn13) then net_ret None
  else
    do found <- primary_stage isbn13;
    match found with
    | Some r => net_ret (Some r)
    | None =>
        if g_useGoogleBooks then secondary_stage isbn13 else net_ret None
    end.

(** What each source yields for an ISBN, when asked. *)
Definition primary_record (isbn13 : str) : option LookupResult :=
  http_response (openLibraryUrl isbn13) ≫= openLibraryRecord.

Definition secondary_record (isbn13 : str) : option LookupResult :=
  http_response (googleBooksUrl isbn13) ≫= googleBooksRecord.

End LookupChain.

(* ===================================================================== *)
(** * SQLite storage *)
(* ===================================================================== *)

(** ** The engine *)

(** Result of preparing and stepping one statement. *)
Inductive sqlite_rc := SQLITE_OK | SQLITE_ERROR.

(** The database file: the rows of [books], the AUTOINCREMENT counter of
    that table (the largest rowid ever handed out), the [settings] table,
    and whether a transaction opened by [BEGIN] is in progress. *)
Record Store := mkStore {
  books : list Book;
  seq : Z;
  settings : gmap string str;
  in_txn : bool
}.

Definition empty_store : Store := mkStore [] 0 ∅ false.

Definition set_books (st : Store) (l : list Book) : Store :=
  mkStore l (seq st) (settings st) (in_txn st).

(** [ORDER BY id ASC]. *)
Fixpoint insert_by_id (b : Book) (l : list Book) : list Book :=
  match l with
  | [] => [b]
  | x :: r => if id b <=? id x then b :: l else x :: insert_by_id b r
  end.

Definition order_by_id (l : list Book) : list Book :=
  fold_right insert_by_id [] l.

(** SQLite holds text as UTF-8 and [LIKE] compares it character by
    character, each character read by [sqlite3Utf8Read]: a byte below 0xC0
    is a character of its own; a byte from 0xC0 on starts a character, its
    value taken from [sqlite3Utf8Trans1], that goes on through every
    following byte of the form 10xxxxxx, six bits each in an unsigned
    32-bit accumulator; a value below 0x80, a surrogate, 0xFFFE or 0xFFFF
    is replaced by U+FFFD.  The text ends at the first NUL. *)
Definition utf8_lead (b : Z) : Z :=
  if b <? 224 then b - 192
  else if b <? 240 then b - 224
  else if b <? 248 then b - 240
  else if b <? 252 then b - 248
  else if b <? 254 then b - 252
  else 0.

Definition is_continuation (b : Z) : bool := (128 <=? b) && (b <? 192).

Definition utf8_fix (c : Z) : Z :=
  if (c <? 128) || (Z.land c 4294965248 =? 55296)
     || (Z.land c 4294967294 =? 65534)
  then 65533 else c.

(** [pending] is the accumulator of a character whose continuation bytes
    are being read. *)
Fixpoint utf8_chars_from (pending : option Z) (s : str) : list Z :=
  match s with
  | [] => match pending with Some c => [utf8_fix c] | None => [] end
  | b :: r =>
      let n := code b in
      let start :=
        if n =? 0 then []
        else if n <? 192 then n :: utf8_chars_from None r
        else utf8_chars_from (Some (utf8_lead n)) r in
      match pending with
      | Some c =>
          if is_continuation n
          then utf8_chars_from (Some ((c * 64 + Z.land n 63) mod 4294967296)) r
          else utf8_fix c :: start
      | None => start
      end
  end.

Definition utf8_chars (s : str) : list Z := utf8_chars_from None s.

(** [sqlite3Tolower] on a character below 0x80. *)
Definition lower_code (c : Z) : Z :=
  if (65 <=? c) && (c <=? 90) then c + 32 else c.

(** One pattern character other than [%] against one character of the
    text, as [patternCompare] decides it with [noCase] set: equal, or both
    below 0x80 and equal up to case, or the pattern character is [_]. *)
Definition like_char (p c : Z) : bool :=
  (p =? c) || ((p <? 128) && (c <? 128) && (lower_code p =? lower_code c))
  || (p =? 95).

(** [patternCompare] for [LIKE] without [ESCAPE], on the characters of the
    pattern and of the text: [%] stands for any run of characters, [_] for
    any one character, and every other character for itself, up to case
    below 0x80. *)
Fixpoint like_chars (pat s : list Z) : bool :=
  match pat with
  | [] => match s with [] => true | _ => false end
  | p :: pat' =>
      if p =? 37 then
        (fix any (t : list Z) : bool :=
           like_chars pat' t ||
           match t with
           | [] => false
           | _ :: t' => any t'
           end) s
      else
        match s with
        | [] => false
        | c :: s' => like_char p c && like_chars pat' s'
        end
  end.

(** The [LIKE] operator of the [search] statement. *)
Definition sql_like (pat s : str) : bool :=
  like_chars (utf8_chars pat) (utf8_chars s).

(** The longest pattern, in bytes, that [LIKE] takes (the default of the
    library). *)
Definition SQLITE_MAX_LIKE_PATTERN_LENGTH : Z := 50000.

(** SQL [lower()] folds ASCII letters only. *)
Definition sql_lower (s : str) : str := lower s.

(** [sqlite3_column_int] and [sqlite3_column_text] into a [Book]. *)
Definition read_row (r : Book) : Book :=
  mkBook (wrap32 (id r)) (c_str (title r)) (c_str (author r))
         (wrap32 (totalPages r)) (wrap32 (currentPage r)) (wrap32 (status r))
         (c_str (isbn r)).

(** The two statements the program runs through [exec] around an import. *)
Inductive sql_command := BEGIN_TRANSACTION | COMMIT.

(** ** [SqliteStorage]

    Every method takes the result code [rc] its statement meets when it is
    prepared and stepped; on [SQLITE_ERROR] the method reports failure and
    the database is as before. *)

(** [exec]: errors are printed and otherwise ignored. *)
Definition exec (cmd : sql_command) (st : Store) : Store :=
  match cmd with
  | BEGIN_TRANSACTION =>
      if in_txn st then st else mkStore (books st) (seq st) (settings st) true
  | COMMIT =>
      if in_txn st then mkStore (books st) (seq st) (settings st) false else st
  end.

(** [add]: the text is bound as C strings, the row takes the next rowid,
    which is returned as an [int]; -1 on failure. *)
Definition add (rc : sqlite_rc) (b : Book) (st : Store) : Z * Store :=
  match rc with
  | SQLITE_ERROR => (-1, st)
  | SQLITE_OK =>
      let rowid := seq st + 1 in
      let row := mkBook rowid (c_str (title b)) (c_str (author b))
                        (totalPages b) (currentPage b) (status b)
                        (c_str (isbn b)) in
      (wrap32 rowid,
       mkStore (books st ++ [row]) rowid (settings st) (in_txn st))
  end.

Definition updateProgress (rc : sqlite_rc) (bid currentPage' status' : Z)
  (st : Store) : bool * Store :=
  match rc with
  | SQLITE_ERROR => (false, st)
  | SQLITE_OK =>
      (true,
       set_books st
         (map (fun r => if id r =? bid
                        then mkBook (id r) (title r) (author r) (totalPages r)
                                    currentPage' status' (isbn r)
                        else r)
              (books st)))
  end.

(** [updateStatus]: [current_page = CASE WHEN ?=2 THEN total_pages ELSE
    current_page END]. *)
Definition updateStatus (rc : sqlite_rc) (bid status' : Z) (st : Store)
  : bool * Store :=
  match rc with
  | SQLITE_ERROR => (false, st)
  | SQLITE_OK =>
      (true,
       set_books st
         (map (fun r => if id r =? bid
                        then mkBook (id r) (title r) (author r) (totalPages r)
                                    (if status' =? 2 then totalPages r
                                     else currentPage r)
                                    status' (isbn r)
                        else r)
              (books st)))
  end.

Definition remove (rc : sqlite_rc) (bid : Z) (st : Store) : bool * Store :=
  match rc with
  | SQLITE_ERROR => (false, st)
  | SQLITE_OK =>
      (true, set_books st (List.filter (fun r => negb (id r =? bid)) (books st)))
  end.

Definition get (rc : sqlite_rc) (bid : Z) (st : Store) : option Book :=
  match rc with
  | SQLITE_ERROR => None
  | SQLITE_OK => read_row <$> List.find (fun r => id r =? bid) (books st)
  end.

(** [list] of the source. *)
Definition list_books (rc : sqlite_rc) (statusFilter : option Z) (st : Store)
  : list Book :=
  match rc with
  | SQLITE_ERROR => []
  | SQLITE_OK =>
      map read_row
        (order_by_id
           (List.filter
              (fun r => match statusFilter with
                        | Some s => status r =? s
                        | None => true
                        end)
              (books st)))
  end.

(** [search]: [WHERE lower(title) LIKE ? OR lower(author) LIKE ?], both
    parameters bound to the lowered pattern as a C string.  On a pattern
    longer than [SQLITE_MAX_LIKE_PATTERN_LENGTH] the operator raises an
    error, [sqlite3_step] does not answer [SQLITE_ROW] and the loop ends
    with no record. *)
Definition search (rc : sqlite_rc) (q : str) (st : Store) : list Book :=
  match rc with
  | SQLITE_ERROR => []
  | SQLITE_OK =>
      let pat := lit "%" ++ q ++ lit "%" in
      let patLower := c_str (lower pat) in
      if SQLITE_MAX_LIKE_PATTERN_LENGTH <? Z.of_nat (length patLower) then []
      else
        map read_row
          (order_by_id
             (List.filter
                (fun r => sql_like patLower (sql_lower (title r))
                          || sql_like patLower (sql_lower (author r)))
                (books st)))
  end.

Definition getDailyRate (rc : sqlite_rc) (st : Store) : Z :=
  match rc with
  | SQLITE_ERROR => 0
  | SQLITE_OK =>
      let rate :=
        match settings st !! "daily_rate"%string with
        | Some v => default 0 (stoi (c_str v))
        | None => 0
        end in
      std_max 0 rate
  end.

Definition setDailyRate (rc : sqlite_rc) (rate : Z) (st : Store)
  : bool * Store :=
  match rc with
  | SQLITE_ERROR => (false, st)
  | SQLITE_OK =>
      let s := to_string (std_max 0 rate) in
      (true,
       mkStore (books st) (seq st)
               (<["daily_rate"%string := c_str s]> (settings st)) (in_txn st))
  end.

(** ** CSV export and import *)

Definition nl : ascii := ascii_of_N 10.
Definition dquote : ascii := ascii_of_N 34.
Definition comma : ascii := ","%char.

Definition csvQuote (s : str) : str :=
  fold_left
    (fun out c => if ch c dquote then out ++ [dquote; dquote] else out ++ [c])
    s [dquote]
  ++ [dquote].

(** The loop of [csvParse] over the characters still to read, with the
    columns closed so far, the current column and the quoting flag. *)
Fixpoint csvParse_loop (cols : list str) (cur : str) (inQ : bool) (rest : str)
  : list str :=
  match rest with
  | [] => cols ++ [cur]
  | c :: rest' =>
      if inQ then
        if ch c dquote then
          match rest' with
          | c' :: rest'' =>
              if ch c' dquote then csvParse_loop cols (cur ++ [dquote]) true rest''
              else csvParse_loop cols cur false rest'
          | [] => csvParse_loop cols cur false rest'
          end
        else csvParse_loop cols (cur ++ [c]) true rest'
      else
        if ch c comma then csvParse_loop (cols ++ [cur]) [] false rest'
        else if ch c dquote then csvParse_loop cols cur true rest'
        else csvParse_loop cols (cur ++ [c]) false rest'
  end.

Definition csvParse (line : str) : list str := csvParse_loop [] [] false line.

Definition strToIntSafe (s : str) : Z := default 0 (stoi s).

(** The lines successive calls of [std::getline] deliver from a text: runs
    between newline characters; a last run without newline counts when it
    is not empty. *)
Fixpoint getlines (text : str) : list str :=
  match text with
  | [] => []
  | c :: r =>
      if ch c nl then [] :: getlines r
      else match getlines r with
           | [] => [[c]]
           | l :: ls => (c :: l) :: ls
           end
  end.

Definition csv_header : str :=
  lit "id,title,author,totalPages,currentPage,status,isbn".

Definition csv_row (b : Book) : str :=
  to_string (id b) ++ [comma] ++
  csvQuote (title b) ++ [comma] ++
  csvQuote (author b) ++ [comma] ++
  to_string (totalPages b) ++ [comma] ++
  to_string (currentPage b) ++ [comma] ++
  to_string (status b) ++ [comma] ++
  csvQuote (isbn b) ++ [nl].

(** [exportCsv] once the output file is open: the text written to it. *)
Definition exportCsv (rc : sqlite_rc) (st : Store) : str :=
  fold_left (fun out b => out ++ csv_row b)
            (list_books rc None st)
            (csv_header ++ [nl]).

(** The record [importCsv] builds from the columns of one line. *)
Definition row_book (cols : list str) : Book :=
  let col := fun n => nth n cols [] in
  let total := std_max 0 (strToIntSafe (col 3%nat)) in
  mkBook 0 (col 1%nat) (col 2%nat)
         total
         (std_clamp (strToIntSafe (col 4%nat)) 0 total)
         (std_clamp (strToIntSafe (col 5%nat)) 0 2)
         (col 6%nat).

(** The [while] loop of [importCsv]; [rcs] gives the result code of each
    INSERT in turn, [SQLITE_OK] once the list is exhausted. *)
Fixpoint import_loop (lines : list str) (rcs : list sqlite_rc) (st : Store)
  : Store :=
  match lines with
  | [] => st
  | line :: lines' =>
      let cols := csvParse line in
      if (length cols <? 7)%nat then import_loop lines' rcs st
      else
        let '(_, st') := add (hd SQLITE_OK rcs) (row_book cols) st in
        import_loop lines' (tl rcs) st'
  end.

(** [importCsv]: [file] is the content of the file at [path], [None] when
    it cannot be opened. *)
Definition importCsv (file : option str) (rcs : list sqlite_rc) (st : Store)
  : bool * Store :=
  match file with
  | None => (false, st)
  | Some text =>
      match getlines text with
      | [] => (false, st)
      | line :: data =>
          let data' :=
            if str_contains (lit "id,") line then data else line :: data in
          (true, exec COMMIT (import_loop data' rcs (exec BEGIN_TRANSACTION st)))
      end
  end.

(* ===================================================================== *)
(** * Status names, prompts, start-up and console flows *)
(* ===================================================================== *)

Fixpoint str_eqb (a b : str) : bool :=
  match a, b with
  | [], [] => true
  | c :: a', d :: b' => ch c d && str_eqb a' b'
  | _, _ => false
  end.

Definition statusToStr (s : Status) : str :=
  match s with
  | ToRead => lit "To-Read"
  | Reading => lit "Reading"
  | Finished => lit "Finished"
  end.

Definition strToStatus (s : str) : option Status :=
  let t := lower s in
  if str_eqb t (lit "to-read") || str_eqb t (lit "toread")
     || str_eqb t (lit "todo") || str_eqb t (lit "0") then Some ToRead
  else if str_eqb t (lit "reading") || str_eqb t (lit "1") then Some Reading
  else if str_eqb t (lit "finished") || str_eqb t (lit "done")
          || str_eqb t (lit "2") then Some Finished
  else None.

(** ** Prompts

    Standard input is the list of the lines [std::getline] still has to
    deliver; what the program prints is left out, except the report a flow
    ends with (without its newline). *)

(** [askInt]: each round reads a line; it returns [lo] at the end of the
    input, asks again when [std::stoi] throws or the number is outside
    [lo, hi], and returns the number otherwise. *)
Fixpoint askInt (input : list str) (lo hi : Z) : Z * list str :=
  match input with
  | [] => (lo, [])
  | s :: rest =>
      match stoi s with
      | Some v => if (v <? lo) || (hi <? v) then askInt rest lo hi else (v, rest)
      | None => askInt rest lo hi
      end
  end.

(** The status the flows derive from a page count (lines 568-570, 610-612
    and 627-629). *)
Definition page_status (totalPages page : Z) : Z :=
  if (0 <? totalPages) && (totalPages <=? page) then status_code Finished
  else if 0 <? page then status_code Reading
  else status_code ToRead.

(** [updatePageFlow]; [rc_get] and [rc_update] are the result codes of its
    two statements.  It returns the report printed last, the input left and
    the database. *)
Definition updatePageFlow (rc_get rc_update : sqlite_rc) (input : list str)
  (db : Store) : str * list str * Store :=
  let '(bid, input1) := askInt input 1 INT_MAX in
  match get rc_get bid db with
  | None => (lit "Not found.", input1, db)
  | Some ob =>
      let '(page, input2) := askInt input1 0 (std_max 0 (totalPages ob)) in
      let status' := page_status (totalPages ob) page in
      let '(ok, db') := updateProgress rc_update bid page status' db in
      (if ok then lit "Updated." else lit "Update failed.", input2, db')
  end.

Definition markStatusFlow (rc_get rc_update : sqlite_rc) (input : list str)
  (db : Store) : str * list str * Store :=
  let '(bid, input1) := askInt input 1 INT_MAX in
  match get rc_get bid db with
  | None => (lit "Not found.", input1, db)
  | Some ob =>
      let '(s, input2) := askInt input1 0 2 in
      let '(ok, db') := updateStatus rc_update bid s db in
      (if ok then lit "Status updated." else lit "Update failed.", input2, db')
  end.

Definition deleteFlow (rc : sqlite_rc) (input : list str) (db : Store)
  : str * list str * Store :=
  let '(bid, input1) := askInt input 1 INT_MAX in
  let '(ok, db') := remove rc bid db in
  (if ok then lit "Deleted." else lit "Not found.", input1, db').

(** ** Start-up checks *)

Section Startup.

Variable http_response : str -> option str.
Variable json_parse : str -> option json.
Variable GOOGLE_BOOKS_API_KEY : option str.

Definition probe_url : str := lit "https://www.google.com/generate_204".

Definition openLibraryHome : str := lit "https://openlibrary.org/".

Definition readiness_url (key : str) : str :=
  lit "https://www.googleapis.com/books/v1/volumes?q=isbn:0000000000000&maxResults=1&fields=totalItems&key="
  ++ key.

Definition internetOk : Net bool :=
  do r <- httpGet http_response probe_url;
  net_ret (match r with Some _ => true | None => false end).

Definition openLibraryOk : Net bool :=
  do r <- httpGet http_response openLibraryHome;
  net_ret (match r with Some _ => true | None => false end).

Definition googleKeyPresent : bool :=
  match GOOGLE_BOOKS_API_KEY with
  | Some (_ :: _) => true
  | _ => false
  end.

Definition googleBooksReady : Net bool :=
  match GOOGLE_BOOKS_API_KEY with
  | Some (c :: k) =>
      do body <- httpGet http_response (readiness_url (c :: k));
      net_ret (match body with
               | Some b =>
                   match json_parse b with
                   | Some j => negb (j_contains j "error")
                   | None => false
                   end
               | None => false
               end)
  | _ => net_ret false
  end.

(** The start-up sequence of [main] up to the menu: [None] when the user
    chooses to exit, otherwise the value [g_useGoogleBooks] keeps for the
    run; with it the input left. *)
Definition startup (input : list str) : Net (option bool * list str) :=
  do netOK <- internetOk;
  let keyOK := googleKeyPresent in
  do gapiOK <- (if netOK && keyOK then googleBooksReady else net_ret false);
  do olOK <- (if netOK then openLibraryOk else net_ret false);
  if negb netOK then net_ret (Some gapiOK, input)
  else if negb gapiOK && negb olOK then net_ret (Some gapiOK, input)
  else if negb gapiOK && olOK then
    match input with
    | (c :: _) :: rest =>
        if ch c "1" then net_ret (None, rest) else net_ret (Some false, rest)
    | [] :: rest => net_ret (Some false, rest)
    | [] => net_ret (Some false, [])
    end
  else net_ret (Some gapiOK, input).

End Startup.

(* ===================================================================== *)
(** * Notions used in the statements *)
(* ===================================================================== *)

(** ** Text *)

Definition no_char (x : ascii) (s : str) : Prop :=
  Forall (fun c => ch c x = false) s.

Definition free_of (x : ascii) (s : str) : bool :=
  forallb (fun c => negb (ch c x)) s.

(** ** ISBN *)

(** A cleaned character is a digit or the letter X. *)
Definition isbn_char (c : ascii) : bool := isdigit c || ch c "X".

(** The weight of position [i] in the loop of [isbn10to13]. *)
Definition weight (i : Z) : Z := if Z.rem i 2 =? 0 then 1 else 3.

(** ** Store *)

(** The AUTOINCREMENT counter bounds every rowid of the table. *)
Definition ids_bounded (st : Store) : Prop :=
  Forall (fun r => id r <= seq st) (books st).

(** Rowids that grow by one from [base]. *)
Definition consecutive_ids (base : Z) (l : list Book) : Prop :=
  forall k b, l !! k = Some b -> id b = base + Z.of_nat k.

(** Equality of two records in everything but the id. *)
Definition same_content (a b : Book) : Prop :=
  title a = title b /\ author a = author b /\
  totalPages a = totalPages b /\ currentPage a = currentPage b /\
  status a = status b /\ isbn a = isbn b.

(** ** Import *)

(** The lines [importCsv] treats as data: all but a first line that holds
    the text "id,". *)
Definition data_lines (text : str) : list str :=
  match getlines text with
  | [] => []
  | first :: rest =>
      if str_contains (lit "id,") first then rest else first :: rest
  end.

Definition has_7_columns (line : str) : bool :=
  (7 <=? length (csvParse line))%nat.

(** Whether a number can be read at the start of a text: after white space
    and an optional sign comes a digit. *)
Definition numeric_start (s : str) : bool :=
  match skip_space s with
  | c :: r =>
      if ch c "-" || ch c "+"
      then match r with d :: _ => isdigit d | [] => false end
      else isdigit c
  | [] => false
  end.

(** What the specification promises of the record imported from a line. *)
Definition row_imported (line : str) (b : Book) : Prop :=
  let col := fun n => nth n (csvParse line) [] in
  title b = c_str (col 1%nat) /\
  author b = c_str (col 2%nat) /\
  isbn b = c_str (col 6%nat) /\
  totalPages b = Z.max 0 (strToIntSafe (col 3%nat)) /\
  currentPage b = Z.max 0 (Z.min (strToIntSafe (col 4%nat)) (totalPages b)) /\
  status b = Z.max 0 (Z.min (strToIntSafe (col 5%nat)) 2).

(** The rows a run of INSERTs without failure appends for the given lines,
    the last rowid handed out being [last]. *)
Fixpoint imported_rows (last : Z) (lines : list str) : list Book :=
  match lines with
  | [] => []
  | line :: lines' =>
      let b := row_book (csvParse line) in
      mkBook (last + 1) (c_str (title b)) (c_str (author b)) (totalPages b)
             (currentPage b) (status b) (c_str (isbn b))
      :: imported_rows (last + 1) lines'
  end.

(** The data lines whose INSERT goes through, given the result code of
    each INSERT in turn. *)
Fixpoint kept_lines (lines : list str) (rcs : list sqlite_rc) : list str :=
  match lines with
  | [] => []
  | line :: lines' =>
      if has_7_columns line then
        match hd SQLITE_OK rcs with
        | SQLITE_OK => line :: kept_lines lines' (tl rcs)
        | SQLITE_ERROR => kept_lines lines' (tl rcs)
        end
      else kept_lines lines' rcs
  end.

(** ** Export *)

(** The doubling escape: every quote character is written twice. *)
Fixpoint quote_body (s : str) : str :=
  match s with
  | [] => []
  | c :: r => if ch c dquote then dquote :: dquote :: quote_body r
              else c :: quote_body r
  end.

(** A data row of the export without its newline. *)
Definition csv_line (b : Book) : str :=
  to_string (id b) ++ [comma] ++
  csvQuote (title b) ++ [comma] ++
  csvQuote (author b) ++ [comma] ++
  to_string (totalPages b) ++ [comma] ++
  to_string (currentPage b) ++ [comma] ++
  to_string (status b) ++ [comma] ++
  csvQuote (isbn b).

(** What may follow a closing quote: the end of the line or a character
    other than a quote. *)
Definition closes (tail : str) : Prop :=
  match tail with
  | [] => True
  | c :: _ => ch c dquote = false
  end.

(** A record the CSV format carries unchanged: text without NUL or line
    break, page counts and status within the ranges the import clamps to. *)
Definition round_trips (b : Book) : bool :=
  free_of zero (title b) && free_of nl (title b) &&
  free_of zero (author b) && free_of nl (author b) &&
  free_of zero (isbn b) && free_of nl (isbn b) &&
  (0 <=? currentPage b) && (currentPage b <=? totalPages b) &&
  (totalPages b <=? INT_MAX) &&
  (0 <=? status b) && (status b <=? 2).

(** ** Search *)

(** Containment up to ASCII case, as the specification words the search. *)
Definition contains_ci (q s : str) : bool := str_contains (lower q) (lower s).

Definition matches_query (q : str) (b : Book) : bool :=
  contains_ci q (title b) || contains_ci q (author b).

(** A query that LIKE reads literally: no wildcard and no NUL in it. *)
Definition literal_query (q : str) : bool :=
  free_of "%" q && free_of "_" q && free_of zero q.

(** A query whose pattern, the query between two [%], is within the
    length that LIKE takes. *)
Definition short_query (q : str) : Prop := Z.of_nat (length q) <= 49998.

(** Text of bytes below 0x80 only: there, bytes and characters coincide. *)
Definition ascii_text (s : str) : bool := forallb (fun c => code c <? 128) s.

(** A byte of a lowered query that stands for itself in a pattern. *)
Definition plain_byte (c : ascii) : Prop :=
  (code c <? 128) = true /\ ch c "%" = false /\ ch c "_" = false /\
  ch c zero = false /\ tolower c = c.

(** ** Sample data *)

Definition the_hobbit : Book :=
  mkBook 0 (lit "The Hobbit") (lit "J.R.R. Tolkien") 310 150 1
         (lit "9780261102217").

(** The title [Title: "Big, Book"], with a comma and two quotes in it. *)
Definition big_book : Book :=
  mkBook 0 (lit "Title: " ++ [dquote] ++ lit "Big, Book" ++ [dquote])
         (lit "A. Writer") 100 40 1 [].

Definition shelf : Store :=
  snd (add SQLITE_OK big_book (snd (add SQLITE_OK the_hobbit empty_store))).

(** A shelf on which the first record is 400 pages into a 310-page book,
    as [updateProgress] allows. *)
Definition overdue_shelf : Store :=
  snd (updateProgress SQLITE_OK 1 400 1 shelf).

(** A file with the header and three well-formed rows. *)
Definition three_rows_csv : str :=
  csv_header ++ [nl] ++
  lit "1,First,A,100,10,1," ++ [nl] ++
  lit "2,Second,B,200,20,1," ++ [nl] ++
  lit "3,Third,C,300,30,1," ++ [nl].

(** A response of the primary source with a title and nothing else. *)
Definition signals_json : json :=
  JObj [("title"%string, JStr (lit "Signals"))].

(** ** Further notions: records, text and files *)

(** A record [add] stores as it is: text without NUL, numbers within
    [int]. *)
Definition storable (b : Book) : bool :=
  free_of zero (title b) && free_of zero (author b) && free_of zero (isbn b) &&
  is_intb (totalPages b) && is_intb (currentPage b) && is_intb (status b).

(** The record [b] under the id [i]. *)
Definition with_id (i : Z) (b : Book) : Book :=
  mkBook i (title b) (author b) (totalPages b) (currentPage b) (status b)
         (isbn b).

(** The rows stand in strictly ascending order of rowid, below the
    AUTOINCREMENT counter. *)
Definition store_wf (st : Store) : Prop :=
  StronglySorted (fun a b => id a < id b) (books st) /\ ids_bounded st.

(** Columns joined by commas. *)
Fixpoint join_commas (cols : list str) : str :=
  match cols with
  | [] => []
  | [c] => c
  | c :: rest => c ++ comma :: join_commas rest
  end.

(** Lines written out, each closed by a newline. *)
Definition unlines (ls : list str) : str :=
  concat (map (fun l => l ++ [nl]) ls).

(** Where a run of digits ends: at the end of the text or before a
    character that is no digit. *)
Definition stops (rest : str) : Prop :=
  match rest with
  | [] => True
  | c :: _ => isdigit c = false
  end.

(** A record whose text the line-based file format can carry: no NUL and
    no line break in it. *)
Definition text_ok (b : Book) : bool :=
  free_of zero (title b) && free_of nl (title b) &&
  free_of zero (author b) && free_of nl (author b) &&
  free_of zero (isbn b) && free_of nl (isbn b).

(** What an export followed by an import makes of a record: the text as it
    is, the numbers clamped. *)
Definition reimported (a b : Book) : Prop :=
  title b = title a /\ author b = author a /\ isbn b = isbn a /\
  totalPages b = Z.max 0 (totalPages a) /\
  currentPage b = Z.max 0 (Z.min (currentPage a) (totalPages b)) /\
  status b = Z.max 0 (Z.min (status a) 2).

(** ** Lookup *)

(** Member [k] of an object read as text: the string it holds, or the
    empty text when the object has no such member. *)
Definition text_member (kv : list (string * json)) (k : string) (s : str)
  : Prop :=
  assoc k kv = Some (JStr s) \/ (assoc k kv = None /\ s = []).

(** The first author of a [volumeInfo]: the first element of the array
    [authors], a string; or the empty text when [authors] is missing, is no
    array or is an empty array. *)
Definition first_author (kv : list (string * json)) (a : str) : Prop :=
  (exists rest, assoc "authors" kv = Some (JArr (JStr a :: rest))) \/
  (a = [] /\
   match assoc "authors" kv with
   | Some (JArr (_ :: _)) => False
   | _ => True
   end).

(** The answer of the primary source holds the title [t] and the author
    [a]: an object whose [title] is the non-empty string [t] and whose
    [by_statement] is the string [a] or is missing. *)
Definition primary_accepts (j : json) (t a : str) : Prop :=
  exists kv, j = JObj kv /\ assoc "title" kv = Some (JStr t) /\ t <> [] /\
             text_member kv "by_statement" a.

(** The first result of the secondary source holds the title [t] and the
    author [a]: [items] is an array whose first element is an object with
    an object [volumeInfo] that has them. *)
Definition secondary_offers (j : json) (t a : str) : Prop :=
  exists kv fkv rest vkv,
    j = JObj kv /\ assoc "items" kv = Some (JArr (JObj fkv :: rest)) /\
    assoc "volumeInfo" fkv = Some (JObj vkv) /\
    text_member vkv "title" t /\ first_author vkv a.

(** A primary answer with a title and a [by_statement] that is no string,
    and a secondary answer with one volume. *)
Definition titled_json : json :=
  JObj [("title"%string, JStr (lit "Signals"));
        ("by_statement"%string, JNum 5)].

Definition volume_json : json :=
  JObj [("items"%string,
         JArr [JObj [("volumeInfo"%string,
                      JObj [("title"%string, JStr (lit "Signals and Systems"));
                            ("authors"%string,
                             JArr [JStr (lit "Alan V. Oppenheim");
                                   JStr (lit "Alan S. Willsky")])])]])].

(** A network on which every URL answers with its own text, and a parser
    that reads the answer of the primary source as [titled_json] and any
    other answer as [volume_json]. *)
Definition echo_response (url : str) : option str := Some url.

Definition sample_parse (body : str) : option json :=
  if is_prefix (lit "https://openlibrary.org/") body
  then Some titled_json else Some volume_json.

(** A numeral: an optional sign and digits, leading zeros included. *)
Inductive num_sign := NoSign | PlusSign | MinusSign.

Definition sign_text (sg : num_sign) : str :=
  match sg with
  | NoSign => []
  | PlusSign => lit "+"
  | MinusSign => lit "-"
  end.

Definition signed (sg : num_sign) (n : Z) : Z :=
  match sg with
  | MinusSign => - n
  | _ => n
  end.

Definition numeral (sg : num_sign) (d : Decimal.uint) : str :=
  sign_text sg ++ uint_chars d.

(* ===================================================================== *)
(** * Properties *)
(* ===================================================================== *)

(** ** Characters, numerals and machine integers *)

Ltac by_cases_on_char c :=
  destruct c as [[] [] [] [] [] [] [] []]; vm_compute;
  try reflexivity; try discriminate; auto.

Lemma isdigit_not_space c : isdigit c = true -> isspace c = false.
Proof. by_cases_on_char c. Qed.

Lemma isdigit_not_sign c : isdigit c = true -> ch c "-" = false /\ ch c "+" = false.
Proof. by_cases_on_char c. Qed.

Lemma uint_chars_digits d : Forall (fun c => isdigit c = true) (uint_chars d).
Proof. induction d; simpl; constructor; auto. Qed.

Lemma take_digits_all s : Forall (fun c => isdigit c = true) s -> take_digits s = s.
Proof. induction 1 as [|c r Hc _ IH]; simpl; [done|]. by rewrite Hc, IH. Qed.

Lemma digits_value_acc d p :
  fold_left (fun acc c => 10 * acc + (code c - 48)) (uint_chars d) (Z.pos p)
  = Z.pos (Pos.of_uint_acc d p).
Proof.
  revert p. induction d; intros p; simpl; [done|..];
    match goal with
    | |- fold_left _ _ ?a = Z.pos (Pos.of_uint_acc _ ?q) =>
        replace a with (Z.pos q) by (vm_compute (code _); lia)
    end; apply IHd.
Qed.

Lemma digits_value_uint d : digits_value (uint_chars d) = Z.of_uint d.
Proof.
  unfold digits_value, Z.of_uint.
  induction d; simpl; try done;
    match goal with
    | |- fold_left _ _ ?a = Z.pos (Pos.of_uint_acc _ ?q) =>
        replace a with (Z.pos q) by (vm_compute; reflexivity)
    end; apply digits_value_acc.
Qed.

Lemma to_int_not_nil z :
  Z.to_int z <> Decimal.Pos Decimal.Nil /\
  Z.to_int z <> Decimal.Neg Decimal.Nil.
Proof.
  split; intros H; pose proof (of_to z) as E; rewrite H in E; cbn in E;
    subst z; discriminate.
Qed.

Lemma stoi_digits s :
  s <> [] -> Forall (fun c => isdigit c = true) s ->
  stoi s = if is_intb (digits_value s) then Some (digits_value s) else None.
Proof.
  intros Hne Hall. destruct s as [|c r]; [done|].
  pose proof (take_digits_all _ Hall) as Ht.
  inversion Hall as [|? ? Hc _]; subst.
  unfold stoi. simpl skip_space. rewrite (isdigit_not_space c Hc).
  destruct (isdigit_not_sign c Hc) as [-> ->]. by rewrite Ht.
Qed.

Lemma stoi_minus_digits s :
  s <> [] -> Forall (fun c => isdigit c = true) s ->
  stoi ("-"%char :: s) =
  if is_intb (- digits_value s) then Some (- digits_value s) else None.
Proof.
  intros Hne Hall. pose proof (take_digits_all _ Hall) as Ht.
  unfold stoi. simpl skip_space. change (isspace "-") with false. cbn match.
  change (ch "-" "-") with true. cbn match. rewrite Ht.
  destruct s; [done|]. done.
Qed.

Lemma is_intb_true z : is_int z -> is_intb z = true.
Proof. unfold is_int, is_intb. intros. apply andb_true_iff. lia. Qed.

Lemma is_intb_spec z : is_intb z = true <-> is_int z.
Proof.
  unfold is_intb, is_int. rewrite andb_true_iff, !Z.leb_le. done.
Qed.

Lemma uint_chars_nil d : uint_chars d = [] -> d = Decimal.Nil.
Proof. destruct d; simpl; congruence. Qed.

Lemma stoi_to_string z : is_int z -> stoi (to_string z) = Some z.
Proof.
  intros Hz. pose proof (of_to z) as E. destruct (to_int_not_nil z) as [Hp Hn].
  unfold to_string. destruct (Z.to_int z) as [d|d] eqn:Hd; cbn in E.
  - rewrite stoi_digits.
    + by rewrite digits_value_uint, E, is_intb_true.
    + intros H%uint_chars_nil. congruence.
    + apply uint_chars_digits.
  - rewrite stoi_minus_digits.
    + by rewrite digits_value_uint, E, is_intb_true.
    + intros H%uint_chars_nil. congruence.
    + apply uint_chars_digits.
Qed.

Lemma wrap32_small z : is_int z -> wrap32 z = z.
Proof.
  unfold is_int, wrap32, INT_MIN, INT_MAX. intros H.
  rewrite Z.mod_small; lia.
Qed.

Lemma std_max_spec a b : std_max a b = Z.max a b.
Proof. unfold std_max. destruct (Z.ltb_spec a b); lia. Qed.

Lemma std_clamp_spec v lo hi :
  lo <= hi -> std_clamp v lo hi = Z.max lo (Z.min v hi).
Proof.
  intros H. unfold std_clamp.
  destruct (Z.ltb_spec v lo); [lia|]. destruct (Z.ltb_spec hi v); lia.
Qed.

(** ** Text *)

Lemma c_str_no_nul s : no_char zero s -> c_str s = s.
Proof. induction 1 as [|c r Hc _ IH]; simpl; [done|]. by rewrite Hc, IH. Qed.

Lemma c_str_is_no_nul s : no_char zero (c_str s).
Proof.
  induction s as [|c r IH]; simpl; [constructor|].
  destruct (ch c zero) eqn:E; [constructor|]. by constructor.
Qed.

Lemma c_str_idempotent s : c_str (c_str s) = c_str s.
Proof. apply c_str_no_nul, c_str_is_no_nul. Qed.

Lemma to_string_chars z :
  Forall (fun c => isdigit c = true \/ c = "-"%char) (to_string z).
Proof.
  unfold to_string. destruct (Z.to_int z) as [d|d].
  - eapply Forall_impl; [apply uint_chars_digits|]. by left.
  - constructor; [by right|].
    eapply Forall_impl; [apply uint_chars_digits|]. by left.
Qed.

Lemma to_string_no_char x z :
  isdigit x = false -> x <> "-"%char -> no_char x (to_string z).
Proof.
  intros Hx Hm. eapply Forall_impl; [apply to_string_chars|].
  intros c [Hc | ->]; unfold ch.
  - apply Ascii.eqb_neq. intros ->. congruence.
  - apply Ascii.eqb_neq. congruence.
Qed.

Lemma c_str_to_string z : c_str (to_string z) = to_string z.
Proof. apply c_str_no_nul. by apply to_string_no_char. Qed.

Lemma free_of_no_char x s : free_of x s = true <-> no_char x s.
Proof.
  unfold free_of, no_char. induction s as [|c r IH]; cbn [forallb].
  - split; [constructor|done].
  - rewrite andb_true_iff, IH, Forall_cons, negb_true_iff. done.
Qed.

(** ** Progress metrics *)

Lemma ceil_div_rounding a b : 0 < b -> (a + b - 1) / b = ceil_div a b.
Proof.
  intros Hb. unfold ceil_div.
  pose proof (Z.div_mod (- a) b ltac:(lia)) as E.
  pose proof (Z.mod_pos_bound (- a) b Hb) as Hm.
  symmetry. apply (Z.div_unique _ _ _ (b - 1 - (- a) mod b)); lia.
Qed.

Lemma ceil_div_spec a b :
  0 < b -> b * (ceil_div a b - 1) < a <= b * ceil_div a b.
Proof.
  intros Hb. unfold ceil_div.
  pose proof (Z.div_mod (- a) b ltac:(lia)) as E.
  pose proof (Z.mod_pos_bound (- a) b Hb) as Hm. lia.
Qed.

Lemma daysToFinish_unknown_iff b dailyRate :
  daysToFinish b dailyRate = None <->
  dailyRate <= 0 \/ totalPages b <= currentPage b.
Proof.
  unfold daysToFinish.
  destruct (dailyRate <=? 0) eqn:H1; destruct (totalPages b <=? currentPage b) eqn:H2;
    simpl; split; try done; try lia; intros _; lia.
Qed.

Lemma daysToFinish_ceil b dailyRate :
  0 < dailyRate -> currentPage b < totalPages b ->
  INT_MIN <= currentPage b ->
  totalPages b - currentPage b + dailyRate <= INT_MAX ->
  daysToFinish b dailyRate =
  Some (ceil_div (totalPages b - currentPage b) dailyRate).
Proof.
  intros Hr Hlt Hlo Hhi. unfold daysToFinish.
  rewrite (proj2 (Z.leb_gt dailyRate 0)) by lia.
  rewrite (proj2 (Z.leb_gt (totalPages b) (currentPage b))) by lia. simpl.
  unfold INT_MIN, INT_MAX in *.
  rewrite (wrap32_small (totalPages b - currentPage b))
    by (unfold is_int, INT_MIN, INT_MAX; lia).
  rewrite (wrap32_small (_ + dailyRate))
    by (unfold is_int, INT_MIN, INT_MAX; lia).
  rewrite wrap32_small by (unfold is_int, INT_MIN, INT_MAX; lia).
  rewrite Z.quot_div_nonneg by lia.
  rewrite <- ceil_div_rounding by done. repeat f_equal; lia.
Qed.

(** C7 (failing input).  With 2,000,000,000 pages left and a daily rate of
    2,000,000,000 pages, both accepted by the prompts of the program, the
    rounding addition [remaining + dailyRate - 1] leaves the range of [int]
    and [daysToFinish] answers 0 days, where the ceiling of the quotient
    is 1. *)
Theorem daysToFinish_overflow :
  let b := mkBook 1 (lit "Long") [] 2000000000 0 0 [] in
  is_int (totalPages b) /\ is_int (currentPage b) /\ is_int 2000000000 /\
  daysToFinish b 2000000000 = Some 0 /\
  ceil_div (totalPages b - currentPage b) 2000000000 = 1.
Proof. vm_compute. repeat split; congruence. Qed.

(** C8 (amended).  A record with 100 pages of which 40 are read, at 15
    pages a day, is finished in 4 days: the ceiling of 60 / 15. *)
Theorem daysToFinish_100_40_15 (i : Z) (t a n : str) (s : Z) :
  daysToFinish (mkBook i t a 100 40 s n) 15 = Some 4.
Proof. reflexivity. Qed.

(** C8 (counterexample).  The result is not 5. *)
Lemma daysToFinish_100_40_15_not_5 :
  daysToFinish (mkBook 1 (lit "T") (lit "A") 100 40 1 []) 15 <> Some 5.
Proof. vm_compute. congruence. Qed.

(** ** ISBN codec *)

Lemma onlyDigitsX_acc s acc :
  fold_left
    (fun t c =>
       if isdigit c || ch c "X" || ch c "x"
       then t ++ [if ch c "x" then "X"%char else c]
       else t)
    s acc
  = acc ++ cleaned s.
Proof.
  revert acc. induction s as [|c r IH]; intros acc; simpl.
  - by rewrite app_nil_r.
  - rewrite IH. unfold cleaned. simpl. unfold keeps at 2.
    destruct (isdigit c || ch c "X" || ch c "x"); simpl; [|done].
    by rewrite <- app_assoc.
Qed.

Lemma onlyDigitsX_cleaned s : onlyDigitsX s = cleaned s.
Proof. apply onlyDigitsX_acc. Qed.

Lemma fold_x_isbn_char c : keeps c = true -> isbn_char (fold_x c) = true.
Proof. by_cases_on_char c. Qed.

Lemma cleaned_isbn_chars s : Forall (fun c => isbn_char c = true) (cleaned s).
Proof.
  unfold cleaned. induction s as [|c r IH]; simpl; [constructor|].
  destruct (keeps c) eqn:Hk; simpl; [|done].
  constructor; [by apply fold_x_isbn_char|done].
Qed.

Lemma isbn_char_value c :
  isbn_char c = true ->
  char_minus_zero c = code c - 48 /\ 0 <= code c - 48 <= 40.
Proof. by_cases_on_char c; split; (done || lia). Qed.

Lemma cleaned_fixed s :
  Forall (fun c => isbn_char c = true) s -> cleaned s = s.
Proof.
  induction 1 as [|c r Hc _ IH]; [done|].
  unfold cleaned in *. simpl.
  assert (keeps c = true /\ fold_x c = c) as [-> Hf] by (revert Hc; by_cases_on_char c).
  simpl. by rewrite Hf, IH.
Qed.

Lemma weight_succ_succ i : 0 <= i -> weight (i + 1 + 1) = weight i.
Proof.
  intros Hi. unfold weight. rewrite !Z.rem_mod_nonneg by lia.
  replace (i + 1 + 1) with (i + 1 * 2) by lia. by rewrite Z.mod_add.
Qed.

Lemma weight_bounds i : 1 <= weight i <= 3.
Proof. unfold weight. destruct (_ =? _); lia. Qed.

Lemma weighted_sum_bounds w w' s :
  1 <= w <= 3 -> 1 <= w' <= 3 ->
  Forall (fun c => isbn_char c = true) s ->
  0 <= weighted_sum w w' s <= 120 * Z.of_nat (length s).
Proof.
  intros Hw Hw' H. revert w w' Hw Hw'.
  induction H as [|c r Hc _ IH]; intros w w' Hw Hw'; simpl; [lia|].
  destruct (isbn_char_value c Hc) as [_ Hv]. specialize (IH w' w Hw' Hw). nia.
Qed.

(** The loop computes the weighted sum, and its additions stay within
    [int]. *)
Lemma isbn_sum_loop s i sum :
  Forall (fun c => isbn_char c = true) s ->
  0 <= i -> 0 <= sum -> sum + 120 * Z.of_nat (length s) <= INT_MAX ->
  fold_left isbn_sum_step s (i, sum)
  = (i + Z.of_nat (length s), sum + weighted_sum (weight i) (weight (i + 1)) s).
Proof.
  intros H. revert i sum.
  induction H as [|c r Hc Hr IH]; intros i sum Hi Hs Hb.
  - simpl. f_equal; lia.
  - cbn [fold_left length weighted_sum] in *.
    destruct (isbn_char_value c Hc) as [Hd Hv].
    unfold isbn_sum_step at 2. rewrite Hd.
    fold (weight i).
    assert (Hwd : (if Z.rem i 2 =? 0 then code c - 48 else wrap32 (3 * (code c - 48)))
                  = weight i * (code c - 48)).
    { unfold weight. destruct (Z.rem i 2 =? 0); [lia|].
      rewrite wrap32_small; [lia|]. unfold is_int, INT_MIN, INT_MAX. lia. }
    rewrite Hwd. pose proof (weight_bounds i) as Hw.
    rewrite wrap32_small by (unfold is_int, INT_MIN, INT_MAX in *; nia).
    rewrite IH by (unfold INT_MAX in *; nia).
    rewrite weight_succ_succ by done. f_equal; lia.
Qed.

Lemma to_string_digit d : 0 <= d <= 9 -> to_string d = [digit_char d].
Proof.
  intros H.
  assert (d = 0 \/ d = 1 \/ d = 2 \/ d = 3 \/ d = 4 \/ d = 5 \/ d = 6 \/
          d = 7 \/ d = 8 \/ d = 9) as Hd by lia.
  repeat (destruct Hd as [-> | Hd]; [reflexivity|]). by subst.
Qed.

Lemma isbn10to13_spec s :
  Forall (fun c => isbn_char c = true) s ->
  isbn10to13 s =
  lit "978" ++ take 9 s ++ [digit_char (check_digit (lit "978" ++ take 9 s))].
Proof.
  intros Hs. unfold isbn10to13, check_digit.
  set (core := lit "978" ++ take 9 s).
  assert (Hcore : Forall (fun c => isbn_char c = true) core).
  { apply Forall_app. split; [by repeat constructor|]. by apply Forall_take. }
  assert (Hlen : (length core <= 12)%nat).
  { unfold core. rewrite length_app, length_take.
    change (length (lit "978")) with 3%nat. lia. }
  rewrite (isbn_sum_loop core 0 0 Hcore) by (unfold INT_MAX; lia).
  cbn [snd]. change (weight 0) with 1. change (weight (0 + 1)) with 3.
  pose proof (weighted_sum_bounds 1 3 core ltac:(lia) ltac:(lia) Hcore) as Hb.
  rewrite Z.add_0_l.
  set (sum := weighted_sum 1 3 core) in *.
  rewrite (Z.rem_mod_nonneg sum 10) by lia.
  pose proof (Z.mod_pos_bound sum 10 ltac:(lia)) as Hm.
  rewrite Z.rem_mod_nonneg by lia.
  pose proof (Z.mod_pos_bound (10 - sum mod 10) 10 ltac:(lia)) as Hc.
  rewrite to_string_digit by lia.
  unfold core. by rewrite <- app_assoc.
Qed.

Lemma normalizeIsbn_refines raw : normalizeIsbn raw = normalize_spec raw.
Proof.
  unfold normalizeIsbn, normalize_spec, isIsbn13, isIsbn10.
  rewrite onlyDigitsX_cleaned.
  destruct (decide (length (cleaned raw) = 13%nat)) as [E|N].
  { by rewrite E. }
  rewrite (proj2 (Nat.eqb_neq _ _) N).
  destruct (decide (length (cleaned raw) = 10%nat)) as [E|N'].
  - rewrite E. simpl. apply isbn10to13_spec, cleaned_isbn_chars.
  - by rewrite (proj2 (Nat.eqb_neq _ _) N').
Qed.

(** C2.  [normalizeIsbn] keeps the digits and the letter X, folded to upper
    case; a cleaned text of 13 characters is returned as it is, one of 10
    characters becomes "978", its first nine characters and the check digit
    [(10 - sum mod 10) mod 10] of the weighted sum (weight 1 at even
    positions, 3 at odd ones), and any other length gives the empty text.
    In particular "0306406152" becomes "9780306406157". *)
Theorem normalizeIsbn_spec :
  (forall raw : str, normalizeIsbn raw = normalize_spec raw) /\
  normalizeIsbn (lit "0306406152") = lit "9780306406157".
Proof. split; [apply normalizeIsbn_refines | reflexivity]. Qed.

Lemma normalizeIsbn_fixed s :
  Forall (fun c => isbn_char c = true) s -> length s = 13%nat ->
  normalizeIsbn s = s.
Proof.
  intros Hs Hlen. unfold normalizeIsbn, isIsbn13.
  by rewrite onlyDigitsX_cleaned, cleaned_fixed, Hlen.
Qed.

Lemma digit_char_isbn_char d : 0 <= d <= 9 -> isbn_char (digit_char d) = true.
Proof.
  intros H.
  assert (d = 0 \/ d = 1 \/ d = 2 \/ d = 3 \/ d = 4 \/ d = 5 \/ d = 6 \/
          d = 7 \/ d = 8 \/ d = 9) as Hd by lia.
  repeat (destruct Hd as [-> | Hd]; [reflexivity|]). by subst.
Qed.

(** A normalized ISBN is a fixed point of the codec. *)
Lemma normalizeIsbn_idempotent raw :
  normalizeIsbn (normalizeIsbn raw) = normalizeIsbn raw.
Proof.
  rewrite (normalizeIsbn_refines raw).
  unfold normalize_spec.
  destruct (decide (length (cleaned raw) = 13%nat)) as [E|N].
  { apply normalizeIsbn_fixed; [apply cleaned_isbn_chars|done]. }
  destruct (decide (length (cleaned raw) = 10%nat)) as [E|N']; [|done].
  apply normalizeIsbn_fixed.
  - apply Forall_app. split; [by repeat constructor|].
    apply Forall_app. split; [apply Forall_take, cleaned_isbn_chars|].
    constructor; [|constructor].
    apply digit_char_isbn_char. unfold check_digit.
    match goal with
    | |- 0 <= ?a mod 10 <= 9 => pose proof (Z.mod_pos_bound a 10); lia
    end.
  - rewrite !length_app, length_take, E. reflexivity.
Qed.

(** ** Lookup chain *)

Section LookupChainFacts.

Variable http_response : str -> option str.
Variable json_parse : str -> option json.
Variable key : option str.

Local Abbreviation primary := (primary_record http_response json_parse).
Local Abbreviation secondary := (secondary_record http_response json_parse key).
Local Abbreviation lookup g isbn :=
  (run_net (lookupIsbn http_response json_parse key g isbn)).

Lemma nonempty_true (s : str) : s <> [] -> nonempty s = true.
Proof. by destruct s. Qed.

Lemma urls_differ isbn : googleBooksUrl key isbn <> openLibraryUrl isbn.
Proof. unfold googleBooksUrl, openLibraryUrl. cbn. discriminate. Qed.

Lemma lookup_unfold g isbn :
  normalizeIsbn isbn = isbn -> isbn <> [] ->
  lookup g isbn =
  match primary isbn with
  | Some r =>
      if accept_primary r then (Some r, [openLibraryUrl isbn])
      else if g then
        (match secondary isbn with
         | Some r2 => if accept_secondary r2 then Some r2 else None
         | None => None
         end, [openLibraryUrl isbn; googleBooksUrl key isbn])
      else (None, [openLibraryUrl isbn])
  | None =>
      if g then
        (match secondary isbn with
         | Some r2 => if accept_secondary r2 then Some r2 else None
         | None => None
         end, [openLibraryUrl isbn; googleBooksUrl key isbn])
      else (None, [openLibraryUrl isbn])
  end.
Proof.
  intros Hn Hne. unfold run_net, lookupIsbn, primary_record, secondary_record.
  rewrite Hn.
  rewrite (nonempty_true _ Hne). cbn [negb].
  unfold net_bind, primary_stage, secondary_stage, net_bind, httpGet, net_ret.
  cbn [app].
  destruct (_ ≫= openLibraryRecord _) as [r|]; [destruct (accept_primary r)|];
    try done; by destruct g.
Qed.

Lemma nonempty_spec (s : str) : nonempty s = true <-> s <> [].
Proof. by destruct s. Qed.

End LookupChainFacts.

Section LookupRecords.

Variable json_parse : str -> option json.

Lemma openLibraryRecord_accepts body j t a :
  json_parse body = Some j -> primary_accepts j t a ->
  openLibraryRecord json_parse body = Some (mkLookup t a).
Proof.
  intros Hj (kv & -> & Ht & _ & Ha). unfold openLibraryRecord.
  rewrite Hj. cbn. rewrite Ht. cbn.
  destruct Ha as [Ha|[Ha ->]]; by rewrite Ha.
Qed.

Lemma openLibraryRecord_accepted body r :
  openLibraryRecord json_parse body = Some r -> lr_title r <> [] ->
  exists j, json_parse body = Some j /\
            primary_accepts j (lr_title r) (lr_author r).
Proof.
  unfold openLibraryRecord. intros H Hne.
  destruct (json_parse body) as [j|]; [|done].
  exists j. split; [done|].
  destruct j as [| | | |items|kv];
    try (cbn in H; injection H as <-; by cbn in Hne).
  cbn in H. exists kv. unfold text_member.
  destruct (assoc "title" kv) as [[| | |t| |]|]; cbn in H; try done;
    destruct (assoc "by_statement" kv) as [[| | |a| |]|]; cbn in H; try done;
    injection H as <-; cbn in Hne |- *; repeat split; try done;
    first [by left|by right].
Qed.

Lemma googleBooksRecord_offers body j t a :
  json_parse body = Some j -> secondary_offers j t a ->
  googleBooksRecord json_parse body = Some (mkLookup t a).
Proof.
  intros Hj (kv & fkv & rest & vkv & -> & Hi & Hv & Ht & Ha).
  unfold googleBooksRecord. rewrite Hj. cbn. rewrite Hi. cbn. rewrite Hv. cbn.
  destruct Ht as [Ht|[Ht ->]]; rewrite Ht; cbn;
    (destruct Ha as [[more Ha]|[-> Ha]];
     [by rewrite Ha|
      destruct (assoc "authors" vkv) as [[| | | |[|x l]|]|]; done]).
Qed.

Lemma googleBooksRecord_accepted body r :
  googleBooksRecord json_parse body = Some r ->
  lr_title r <> [] \/ lr_author r <> [] ->
  exists j, json_parse body = Some j /\
            secondary_offers j (lr_title r) (lr_author r).
Proof.
  unfold googleBooksRecord. intros H Hne.
  destruct (json_parse body) as [j|]; [|done].
  exists j. split; [done|].
  destruct j as [| | | |items|kv]; try done.
  cbn in H.
  destruct (assoc "items" kv) as [its|] eqn:Hi; [|done]. cbn in H.
  destruct its as [| | | |[|first rest]|]; try done. cbn in H.
  destruct first as [| | | |?|fkv]; try done;
    [cbn in H; injection H as <-; cbn in Hne; by destruct Hne|].
  cbn in H.
  destruct (assoc "volumeInfo" fkv) as [vi|] eqn:Hv; cbn in H;
    [|injection H as <-; cbn in Hne; by destruct Hne].
  destruct vi as [| | | |?|vkv];
    try (cbn in H; injection H as <-; cbn in Hne; by destruct Hne).
  cbn in H.
  exists kv, fkv, rest, vkv. unfold text_member, first_author.
  destruct (assoc "title" vkv) as [[| | |t| |]|]; cbn in H; try done;
    destruct (assoc "authors" vkv) as [[| | | |[|[| | |a| |] l]|]|];
    cbn in H; try done;
    injection H as <-; cbn [lr_title lr_author]; repeat split; try done;
    first [by left|by right|by left; eexists].
Qed.

End LookupRecords.

Section LookupChainOrder.

Variable http_response : str -> option str.
Variable json_parse : str -> option json.
Variable key : option str.

Local Abbreviation lookup g isbn :=
  (run_net (lookupIsbn http_response json_parse key g isbn)).


End LookupChainOrder.



(** ** The rowid invariant *)

Lemma empty_store_bounded : ids_bounded empty_store.
Proof. constructor. Qed.

Lemma add_bounded rc b st : ids_bounded st -> ids_bounded (snd (add rc b st)).
Proof.
  unfold ids_bounded. intros H. destruct rc; [|done]. cbn.
  apply Forall_app. split.
  - eapply Forall_impl; [exact H|]. intros r Hr. cbn beta in *. lia.
  - repeat constructor. cbn. lia.
Qed.

Lemma add_fresh b st :
  ids_bounded st ->
  Forall (fun r => id r < seq (snd (add SQLITE_OK b st))) (books st).
Proof.
  unfold ids_bounded. intros H. cbn.
  eapply Forall_impl; [exact H|]. intros r Hr. cbn beta in *. lia.
Qed.

Lemma updateProgress_bounded rc bid p s st :
  ids_bounded st -> ids_bounded (snd (updateProgress rc bid p s st)).
Proof.
  unfold ids_bounded. intros H. destruct rc; [|done]. cbn.
  apply Forall_map. eapply Forall_impl; [exact H|].
  intros r Hr. cbn beta in *. by destruct (id r =? bid).
Qed.

Lemma updateStatus_bounded rc bid s st :
  ids_bounded st -> ids_bounded (snd (updateStatus rc bid s st)).
Proof.
  unfold ids_bounded. intros H. destruct rc; [|done]. cbn.
  apply Forall_map. eapply Forall_impl; [exact H|].
  intros r Hr. cbn beta in *. by destruct (id r =? bid).
Qed.

Lemma remove_bounded rc bid st :
  ids_bounded st -> ids_bounded (snd (remove rc bid st)).
Proof.
  unfold ids_bounded. intros H. destruct rc; [|done]. cbn.
  induction H as [|r l Hr _ IH]; cbn; [constructor|].
  destruct (negb (id r =? bid)); [by constructor|done].
Qed.

Lemma exec_bounded cmd st : ids_bounded st -> ids_bounded (exec cmd st).
Proof. unfold ids_bounded, exec. by destruct cmd, (in_txn st). Qed.

Lemma import_loop_bounded lines rcs st :
  ids_bounded st -> ids_bounded (import_loop lines rcs st).
Proof.
  revert rcs st. induction lines as [|line lines IH]; intros rcs st H; [done|].
  cbn [import_loop]. destruct (_ <? _)%nat; [by apply IH|].
  destruct (add (hd SQLITE_OK rcs) (row_book (csvParse line)) st) as [i st'] eqn:E.
  apply IH. change st' with (snd (i, st')). rewrite <- E. by apply add_bounded.
Qed.

Lemma importCsv_bounded file rcs st :
  ids_bounded st -> ids_bounded (snd (importCsv file rcs st)).
Proof.
  intros H. unfold importCsv. destruct file as [text|]; [|done].
  destruct (getlines text) as [|line data]; [done|]. cbn [snd].
  by apply exec_bounded, import_loop_bounded, exec_bounded.
Qed.

(** ** Daily rate *)

Lemma getDailyRate_nonneg rc st : 0 <= getDailyRate rc st.
Proof. unfold getDailyRate. destruct rc; [|done]. rewrite std_max_spec. lia. Qed.

(** C10.  [setDailyRate r] stores the decimal text of [max 0 r], which
    [getDailyRate] reads back; [getDailyRate] is never negative, and it is 0
    when the setting is absent, does not parse, or holds a negative
    number. *)
Theorem dailyRate_nonneg (r : Z) (st : Store) :
  is_int r ->
  let st' := snd (setDailyRate SQLITE_OK r st) in
  fst (setDailyRate SQLITE_OK r st) = true /\
  settings st' !! "daily_rate"%string = Some (to_string (Z.max 0 r)) /\
  getDailyRate SQLITE_OK st' = Z.max 0 r /\
  (forall rc s, 0 <= getDailyRate rc s) /\
  (forall rc s, settings s !! "daily_rate"%string = None ->
                getDailyRate rc s = 0) /\
  (forall rc s v, settings s !! "daily_rate"%string = Some v ->
                  stoi (c_str v) = None -> getDailyRate rc s = 0) /\
  (forall rc s v n, settings s !! "daily_rate"%string = Some v ->
                    stoi (c_str v) = Some n -> n < 0 -> getDailyRate rc s = 0).
Proof.
  intros Hr st'.
  assert (Hset : settings st' !! "daily_rate"%string = Some (to_string (Z.max 0 r))).
  { unfold st'. cbn. rewrite lookup_insert_eq. by rewrite c_str_to_string, std_max_spec. }
  split; [done|]. split; [done|]. split.
  { unfold getDailyRate. rewrite Hset, c_str_to_string, stoi_to_string.
    - cbn. rewrite std_max_spec. lia.
    - unfold is_int, INT_MIN, INT_MAX in *. lia. }
  split; [apply getDailyRate_nonneg|].
  split; [|split].
  - intros rc s Hs. unfold getDailyRate. destruct rc; [|done]. by rewrite Hs.
  - intros rc s v Hs Hv. unfold getDailyRate. destruct rc; [|done].
    by rewrite Hs, Hv.
  - intros rc s v n Hs Hv Hn. unfold getDailyRate. destruct rc; [|done].
    rewrite Hs, Hv. cbn. rewrite std_max_spec. lia.
Qed.

Lemma dailyRate_nonneg_witness :
  is_int (-7) /\
  getDailyRate SQLITE_OK (snd (setDailyRate SQLITE_OK (-7) empty_store)) = 0.
Proof.
  assert (H : is_int (-7)) by (unfold is_int, INT_MIN, INT_MAX; lia).
  split; [exact H|].
  exact (proj1 (proj2 (proj2 (dailyRate_nonneg (-7) empty_store H)))).
Defined.

(** ** Status and progress updates *)

Lemma find_map_same_id (f : Book -> Book) bid l :
  (forall r, id (f r) = id r) ->
  List.find (fun r => id r =? bid) (map f l)
  = f <$> List.find (fun r => id r =? bid) l.
Proof.
  intros Hf. induction l as [|r l IH]; simpl; [done|].
  rewrite Hf. destruct (id r =? bid); [done|apply IH].
Qed.

Lemma find_id_eq bid l r :
  List.find (fun r => id r =? bid) l = Some r -> id r = bid.
Proof. intros [_ H]%find_some. lia. Qed.

(** C4.  For a stored record, [updateStatus] with Finished (2) sets the
    current page to the total pages and with any other status leaves it as
    it is, [updateProgress] stores the current page and the status it is
    given, and both leave id, title, author, total pages and ISBN alone. *)
Theorem status_coupling (st : Store) (bid s p : Z) (b : Book) :
  get SQLITE_OK bid st = Some b -> is_int s -> is_int p ->
  (fst (updateStatus SQLITE_OK bid s st) = true /\
   get SQLITE_OK bid (snd (updateStatus SQLITE_OK bid s st)) =
   Some (mkBook (id b) (title b) (author b) (totalPages b)
                (if decide (s = status_code Finished) then totalPages b
                 else currentPage b)
                s (isbn b))) /\
  (fst (updateProgress SQLITE_OK bid p s st) = true /\
   get SQLITE_OK bid (snd (updateProgress SQLITE_OK bid p s st)) =
   Some (mkBook (id b) (title b) (author b) (totalPages b) p s (isbn b))).
Proof.
  unfold get. intros Hget Hs Hp.
  destruct (List.find _ (books st)) as [r|] eqn:Hfind; [|done].
  cbn in Hget. injection Hget as <-.
  split; (split; [done|]); cbn [snd updateStatus updateProgress set_books books].
  - rewrite find_map_same_id by (intros x; by destruct (id x =? bid)).
    rewrite Hfind. cbn. rewrite (find_id_eq _ _ _ Hfind), Z.eqb_refl.
    unfold read_row. cbn. rewrite (wrap32_small s) by done.
    do 2 f_equal. destruct (decide (s = 2)) as [->|Hne]; [done|].
    by rewrite (proj2 (Z.eqb_neq s 2) Hne).
  - rewrite find_map_same_id by (intros x; by destruct (id x =? bid)).
    rewrite Hfind. cbn. rewrite (find_id_eq _ _ _ Hfind), Z.eqb_refl.
    unfold read_row. cbn. by rewrite (wrap32_small s), (wrap32_small p).
Qed.

Lemma status_coupling_witness :
  get SQLITE_OK 1 (snd (updateStatus SQLITE_OK 1 2 shelf)) =
  Some (mkBook 1 (lit "The Hobbit") (lit "J.R.R. Tolkien") 310 310 2
               (lit "9780261102217")).
Proof.
  refine (proj2 (proj1 (status_coupling shelf 1 2 0
            (mkBook 1 (lit "The Hobbit") (lit "J.R.R. Tolkien") 310 150 1
                    (lit "9780261102217")) _ _ _))).
  - reflexivity.
  - unfold is_int, INT_MIN, INT_MAX; lia.
  - unfold is_int, INT_MIN, INT_MAX; lia.
Defined.

(** ** Ordering by id *)

Lemma insert_by_id_Forall (P : Book -> Prop) b l :
  P b -> Forall P l -> Forall P (insert_by_id b l).
Proof.
  intros Hb. induction 1 as [|x r Hx Hr IH]; cbn [insert_by_id].
  - by repeat constructor.
  - destruct (id b <=? id x); repeat constructor; done.
Qed.

Lemma order_by_id_Forall (P : Book -> Prop) l :
  Forall P l -> Forall P (order_by_id l).
Proof.
  induction 1 as [|x r Hx Hr IH]; cbn; [constructor|].
  by apply insert_by_id_Forall.
Qed.

Lemma consecutive_ids_tail base b l :
  consecutive_ids base (b :: l) -> id b = base /\ consecutive_ids (base + 1) l.
Proof.
  intros H. split.
  - rewrite (H 0%nat b eq_refl). lia.
  - intros k x Hx. rewrite (H (S k) x Hx). lia.
Qed.

Lemma order_by_id_consecutive base l :
  consecutive_ids base l -> order_by_id l = l.
Proof.
  revert base. induction l as [|b l IH]; intros base H; [done|].
  apply consecutive_ids_tail in H as [Hb Hl].
  cbn [order_by_id fold_right]. fold (order_by_id l). rewrite (IH _ Hl).
  destruct l as [|x r]; [done|].
  apply consecutive_ids_tail in Hl as [Hx _].
  cbn [insert_by_id]. by rewrite (proj2 (Z.leb_le (id b) (id x))) by lia.
Qed.

(** The result of [ORDER BY id ASC] holds the same rows, in ascending order
    of id. *)
Lemma insert_by_id_perm b l : Permutation (insert_by_id b l) (b :: l).
Proof.
  induction l as [|x r IH]; cbn [insert_by_id]; [done|].
  destruct (id b <=? id x); [done|].
  rewrite IH. apply perm_swap.
Qed.

Lemma order_by_id_perm l : Permutation (order_by_id l) l.
Proof.
  induction l as [|x r IH]; cbn; [done|].
  fold (order_by_id r). by rewrite insert_by_id_perm, IH.
Qed.

Lemma insert_by_id_sorted b l :
  Sorted (fun x y => id x <= id y) l ->
  Sorted (fun x y => id x <= id y) (insert_by_id b l).
Proof.
  induction 1 as [|x r Hr IH Hhd]; cbn [insert_by_id].
  - by repeat constructor.
  - destruct (Z.leb_spec (id b) (id x)) as [Hle|Hgt].
    + repeat constructor; done.
    + constructor; [done|].
      destruct r as [|y r']; cbn [insert_by_id].
      * constructor. lia.
      * destruct (id b <=? id y); constructor; [lia|].
        by inversion Hhd.
Qed.

Lemma order_by_id_sorted l :
  Sorted (fun x y => id x <= id y) (order_by_id l).
Proof.
  induction l as [|x r IH]; cbn; [constructor|].
  by apply insert_by_id_sorted.
Qed.

(** ** Search *)

(** For a query of bytes below 0x80 without wildcard, [search] is the
    substring search of the specification. *)

Lemma tolower_idempotent c : tolower (tolower c) = tolower c.
Proof. by_cases_on_char c. Qed.

Lemma lower_idempotent s : lower (lower s) = lower s.
Proof.
  unfold lower. rewrite map_map. apply map_ext. intros c. apply tolower_idempotent.
Qed.

Lemma like_chars_percent_cons p c s :
  like_chars (37 :: p) (c :: s)
  = like_chars p (c :: s) || like_chars (37 :: p) s.
Proof. reflexivity. Qed.

Lemma like_chars_percent_nil p :
  like_chars (37 :: p) [] = like_chars p [].
Proof. cbn. by rewrite orb_false_r. Qed.

Lemma like_chars_percent_only s : like_chars [37] s = true.
Proof.
  induction s as [|c s IH]; [done|].
  by rewrite like_chars_percent_cons, IH, orb_true_r.
Qed.

Lemma code_inj c d : code c = code d -> c = d.
Proof.
  unfold code. intros H. apply N2Z.inj in H.
  by rewrite <- (ascii_N_embedding c), <- (ascii_N_embedding d), H.
Qed.

Lemma ch_code c d : ch c d = (code c =? code d).
Proof.
  unfold ch. destruct (Ascii.eqb_spec c d) as [->|Hne].
  - by rewrite Z.eqb_refl.
  - symmetry. apply Z.eqb_neq. intros H. by apply Hne, code_inj.
Qed.

Lemma lower_code_tolower c : lower_code (code c) = code (tolower c).
Proof. by_cases_on_char c. Qed.

(** A pattern character below 0x80 that is no wildcard stands for the byte
    it is, once both sides are in lower case. *)
Lemma like_char_byte c b :
  (code c <? 128) = true -> ch c "_" = false ->
  tolower c = c -> tolower b = b ->
  like_char (code c) (code b) = ch c b.
Proof.
  intros Hc Hu Hlc Hlb. unfold like_char.
  rewrite !lower_code_tolower, Hlc, Hlb, <- !ch_code.
  rewrite ch_code in Hu. change (code "_") with 95 in Hu. rewrite Hu.
  destruct (ch c b); [done|]. by rewrite andb_false_r.
Qed.

Lemma like_char_high c x :
  (code c <? 128) = true -> ch c "_" = false -> 128 <= x ->
  like_char (code c) x = false.
Proof.
  intros Hc Hu Hx. unfold like_char.
  rewrite ch_code in Hu. change (code "_") with 95 in Hu. rewrite Hu.
  apply Z.ltb_lt in Hc.
  rewrite (proj2 (Z.eqb_neq _ _)) by lia.
  rewrite (proj2 (Z.ltb_ge x 128)) by lia.
  by rewrite andb_false_r.
Qed.

Lemma utf8_fix_high c : 128 <= utf8_fix c.
Proof.
  unfold utf8_fix. destruct (Z.ltb_spec c 128); cbn [orb]; [lia|].
  destruct (_ || _); lia.
Qed.

(** A character under way ends in a character from 0x80 on. *)
Lemma utf8_pending_head t :
  forall c, exists x l, utf8_chars_from (Some c) t = x :: l /\ 128 <= x.
Proof.
  induction t as [|b r IH]; intros c; cbn [utf8_chars_from].
  - eexists _, _. split; [done|]. apply utf8_fix_high.
  - destruct (is_continuation (code b)); [apply IH|].
    eexists _, _. split; [done|]. apply utf8_fix_high.
Qed.

(** Text of bytes below 0x80 is read byte by byte. *)
Lemma utf8_chars_ascii p rest :
  ascii_text p = true -> no_char zero p ->
  utf8_chars (p ++ rest) = map code p ++ utf8_chars rest.
Proof.
  unfold utf8_chars, ascii_text, no_char.
  induction p as [|c p IH]; [done|].
  cbn [forallb]. rewrite andb_true_iff. intros [Hc Hp] Hz.
  inversion Hz as [|? ? Hc0 Hz']; subst.
  cbn [app map utf8_chars_from].
  rewrite ch_code in Hc0. change (code zero) with 0 in Hc0. rewrite Hc0.
  apply Z.ltb_lt in Hc. rewrite (proj2 (Z.ltb_lt (code c) 192)) by lia.
  f_equal. by apply IH.
Qed.

Lemma like_chars_literal_prefix p t :
  Forall plain_byte p -> no_char zero t -> lower t = t ->
  like_chars (map code p ++ [37]) (utf8_chars t) = is_prefix p t.
Proof.
  unfold utf8_chars. intros Hp. revert t.
  induction Hp as [|c p (Hc & Hpc & Hu & Hz & Hl) _ IH]; intros t Hzt Hlt.
  - cbn [map app is_prefix]. apply like_chars_percent_only.
  - cbn [map app like_chars].
    rewrite ch_code in Hpc. change (code "%") with 37 in Hpc. rewrite Hpc.
    destruct t as [|b r]; [done|].
    inversion Hzt as [|? ? Hb0 Hzr]; subst.
    cbn [lower map] in Hlt. injection Hlt as Hlb Hlr.
    cbn [utf8_chars_from is_prefix].
    rewrite ch_code in Hb0. change (code zero) with 0 in Hb0. rewrite Hb0.
    destruct (Z.ltb_spec (code b) 192) as [Hlow|Hhigh].
    + rewrite like_char_byte by done. f_equal. by apply IH.
    + destruct (utf8_pending_head r (utf8_lead (code b))) as (x & l & -> & Hx).
      rewrite like_char_high by done.
      rewrite ch_code. apply Z.ltb_lt in Hc.
      by rewrite (proj2 (Z.eqb_neq _ _)) by lia.
Qed.

Lemma like_chars_substring_from c p t :
  Forall plain_byte (c :: p) -> no_char zero t -> lower t = t ->
  forall pending,
    like_chars (37 :: map code (c :: p) ++ [37]) (utf8_chars_from pending t)
    = str_contains (c :: p) t.
Proof.
  intros Hp. pose proof Hp as Hcp.
  inversion Hcp as [|? ? (Hc & Hpc & Hu & Hz & Hl) _]; subst.
  rewrite ch_code in Hpc. change (code "%") with 37 in Hpc.
  assert (Hhigh : forall x l,
    128 <= x ->
    like_chars (37 :: map code (c :: p) ++ [37]) (x :: l)
    = like_chars (37 :: map code (c :: p) ++ [37]) l).
  { intros x l Hx. rewrite like_chars_percent_cons.
    cbn [map app like_chars]. rewrite Hpc.
    by rewrite like_char_high by done. }
  assert (Hnil : like_chars (37 :: map code (c :: p) ++ [37]) [] = false).
  { rewrite like_chars_percent_nil. cbn [map app like_chars]. by rewrite Hpc. }
  assert (Hbyte : forall b r,
    128 <= code b -> str_contains (c :: p) (b :: r) = str_contains (c :: p) r).
  { intros b r Hb. cbn [str_contains is_prefix].
    rewrite ch_code. apply Z.ltb_lt in Hc.
    by rewrite (proj2 (Z.eqb_neq _ _)) by lia. }
  induction t as [|b r IH]; intros Hzt Hlt pending.
  - destruct pending as [acc|]; cbn [utf8_chars_from].
    + rewrite Hhigh by apply utf8_fix_high. by rewrite Hnil.
    + by rewrite Hnil.
  - inversion Hzt as [|? ? Hb0 Hzr]; subst.
    pose proof Hlt as Hlt'.
    cbn [lower map] in Hlt'. injection Hlt' as Hlb Hlr.
    specialize (IH Hzr Hlr).
    assert (Hnone :
      like_chars (37 :: map code (c :: p) ++ [37])
                 (utf8_chars_from None (b :: r))
      = str_contains (c :: p) (b :: r)).
    { pose proof Hb0 as Hb0'.
      rewrite ch_code in Hb0'. change (code zero) with 0 in Hb0'.
      destruct (Z.ltb_spec (code b) 192) as [Hlow|Hhi].
      - assert (Hdec : utf8_chars (b :: r) = code b :: utf8_chars_from None r).
        { unfold utf8_chars. cbn [utf8_chars_from]. rewrite Hb0'.
          by rewrite (proj2 (Z.ltb_lt _ _) Hlow). }
        change (utf8_chars_from None (b :: r)) with (utf8_chars (b :: r)).
        rewrite Hdec, like_chars_percent_cons, <- Hdec.
        rewrite like_chars_literal_prefix by done.
        by rewrite IH.
      - cbn [utf8_chars_from]. rewrite Hb0', (proj2 (Z.ltb_ge _ _) Hhi).
        rewrite IH. symmetry. apply Hbyte. lia. }
    destruct pending as [acc|]; [|exact Hnone].
    cbn [utf8_chars_from].
    destruct (is_continuation (code b)) eqn:Hcont.
    + rewrite IH. symmetry. apply Hbyte.
      unfold is_continuation in Hcont. apply andb_true_iff in Hcont as [H1 _].
      by apply Z.leb_le.
    + rewrite Hhigh by apply utf8_fix_high. exact Hnone.
Qed.

(** On text without NUL, a pattern [%p%] whose [p] is made of bytes below
    0x80 other than the wildcards finds the texts that contain [p]. *)
Lemma sql_like_substring p t :
  Forall plain_byte p -> no_char zero t -> lower t = t ->
  sql_like ("%"%char :: p ++ ["%"%char]) t = str_contains p t.
Proof.
  intros Hp Hzt Hlt. unfold sql_like.
  assert (Hpat : utf8_chars ("%"%char :: p ++ ["%"%char])
                 = 37 :: map code p ++ [37]).
  { change ("%"%char :: p ++ ["%"%char]) with (["%"%char] ++ (p ++ ["%"%char])).
    rewrite (utf8_chars_ascii ["%"%char]) by (done || by repeat constructor).
    rewrite utf8_chars_ascii.
    - done.
    - unfold ascii_text. apply forallb_forall. intros x Hx.
      apply (proj1 (List.Forall_forall _ _) Hp x Hx).
    - unfold no_char. eapply List.Forall_impl; [|exact Hp]. intros x Hx. apply Hx. }
  rewrite Hpat.
  destruct p as [|c p].
  - cbn [map app]. destruct t as [|b r]; [done|].
    assert (H : forall l, like_chars [37; 37] l = true).
    { induction l as [|x l IHl]; [done|].
      by rewrite like_chars_percent_cons, like_chars_percent_only. }
    by rewrite H.
  - by apply like_chars_substring_from.
Qed.

Lemma tolower_plain c :
  (code c <? 128) = true ->
  ch c "%" = false -> ch c "_" = false -> ch c zero = false ->
  plain_byte (tolower c).
Proof. unfold plain_byte. by_cases_on_char c. Qed.

Lemma tolower_not_nul c : ch c zero = false -> ch (tolower c) zero = false.
Proof. by_cases_on_char c. Qed.

Lemma lower_no_nul s : no_char zero s -> no_char zero (lower s).
Proof.
  unfold no_char, lower. intros H.
  induction H as [|c s Hc _ IH]; cbn [map]; constructor; [|done].
  by apply tolower_not_nul.
Qed.

Lemma literal_query_spec q :
  ascii_text q = true -> literal_query q = true ->
  Forall plain_byte (lower q).
Proof.
  unfold ascii_text, literal_query, free_of, lower.
  induction q as [|c q IH]; cbn [forallb map]; [by constructor|].
  rewrite !andb_true_iff, !negb_true_iff.
  intros [Hc Hq] [[[H1 H1'] [H2 H2']] [H3 H3']].
  constructor; [by apply tolower_plain|].
  apply IH; [done|]. by rewrite H1', H2', H3'.
Qed.

Lemma search_pattern q :
  ascii_text q = true -> literal_query q = true ->
  c_str (lower (lit "%" ++ q ++ lit "%")) = "%"%char :: lower q ++ ["%"%char].
Proof.
  intros Ha Hq. pose proof (literal_query_spec q Ha Hq) as Hp.
  unfold lower. rewrite map_app. cbn [lit list_ascii_of_string map app].
  rewrite map_app. change (tolower "%") with "%"%char. cbn [map].
  apply c_str_no_nul. constructor; [done|].
  apply Forall_app. split; [|by repeat constructor].
  eapply List.Forall_impl; [|exact Hp]. intros x Hx. apply Hx.
Qed.

Lemma filter_ext_bool {A} (f g : A -> bool) l :
  (forall x, f x = g x) -> List.filter f l = List.filter g l.
Proof. intros H. induction l as [|x l IH]; cbn; [done|]. by rewrite H, IH. Qed.

Lemma filter_ext_in_bool {A} (f g : A -> bool) l :
  Forall (fun x => f x = g x) l -> List.filter f l = List.filter g l.
Proof.
  intros H. induction H as [|x l Hx _ IH]; cbn; [done|]. by rewrite Hx, IH.
Qed.

Lemma search_literal q st :
  ascii_text q = true -> literal_query q = true -> short_query q ->
  Forall (fun r => no_char zero (title r) /\ no_char zero (author r)) (books st) ->
  search SQLITE_OK q st
  = map read_row (order_by_id (List.filter (matches_query q) (books st))).
Proof.
  intros Ha Hq Hlen Hrows. unfold search. rewrite (search_pattern q Ha Hq).
  pose proof (literal_query_spec q Ha Hq) as Hlit.
  assert (Hfits : (SQLITE_MAX_LIKE_PATTERN_LENGTH
                   <? Z.of_nat (length ("%"%char :: lower q ++ ["%"%char])))
                  = false).
  { apply Z.ltb_ge. cbn [length]. unfold lower.
    rewrite length_app, length_map. cbn [length].
    unfold short_query, SQLITE_MAX_LIKE_PATTERN_LENGTH in *. lia. }
  rewrite Hfits.
  do 2 f_equal. apply filter_ext_in_bool.
  eapply List.Forall_impl; [|exact Hrows]. intros r [Ht Hau]. cbn beta.
  unfold matches_query, contains_ci, sql_lower.
  by rewrite !sql_like_substring
    by (done || apply lower_idempotent || by apply lower_no_nul).
Qed.

Lemma search_exact q st b :
  ascii_text q = true -> literal_query q = true -> short_query q ->
  Forall (fun r => no_char zero (title r) /\ no_char zero (author r)) (books st) ->
  In b (search SQLITE_OK q st) <->
  exists r, In r (books st) /\ matches_query q r = true /\ b = read_row r.
Proof.
  intros Ha Hq Hlen Hrows.
  rewrite (search_literal q st Ha Hq Hlen Hrows), in_map_iff.
  split.
  - intros (r & <- & Hr). exists r.
    apply (Permutation_in _ (order_by_id_perm _)) in Hr.
    apply filter_In in Hr as [? ?]. done.
  - intros (r & Hr & Hm & ->). exists r. split; [done|].
    apply (Permutation_in _ (Permutation_sym (order_by_id_perm _))).
    by apply filter_In.
Qed.

Lemma search_ascending q st :
  Forall (fun r => is_int (id r)) (books st) ->
  Sorted Z.le (map id (search SQLITE_OK q st)).
Proof.
  intros Hids. unfold search.
  destruct (_ <? _); [constructor|].
  set (rows := List.filter _ (books st)).
  assert (Hrows : Forall (fun r => is_int (id r)) (order_by_id rows)).
  { apply order_by_id_Forall. unfold rows.
    clear -Hids. induction Hids as [|x l Hx _ IH]; cbn; [constructor|].
    destruct (_ || _); [by constructor|done]. }
  pose proof (order_by_id_sorted rows) as Hs.
  induction Hs as [|x l Hl IH Hhd]; cbn [map]; [constructor|].
  inversion Hrows as [|? ? Hx Hl']; subst.
  constructor; [by apply IH|].
  destruct Hhd as [|y l' Hxy]; cbn [map]; constructor.
  inversion Hl' as [|? ? Hy _]; subst.
  cbn. by rewrite !wrap32_small.
Qed.

(** C9 (failing input).  On the shelf holding "The Hobbit" by
    "J.R.R. Tolkien", the query "t_l" is contained in neither the title nor
    the author, yet [search] returns the record: LIKE reads the underscore
    of the query as a wildcard.  The query "tol" finds the record, as the
    specification says. *)
Theorem search_wildcard :
  List.filter (matches_query (lit "t_l")) (books shelf) = [] /\
  map title (search SQLITE_OK (lit "t_l") shelf) = [lit "The Hobbit"] /\
  map author (search SQLITE_OK (lit "t_l") shelf) = [lit "J.R.R. Tolkien"] /\
  map title (search SQLITE_OK (lit "tol") shelf) = [lit "The Hobbit"].
Proof. vm_compute. repeat split; congruence. Qed.

(** [LIKE] reads characters, not bytes: the second byte of the two-byte
    character U+00E9 is found in no text, and [_] takes the whole
    character. *)
Lemma like_reads_characters :
  let e_acute := [ascii_of_N 195; ascii_of_N 169] in
  let cafe := lit "caf" ++ e_acute in
  let society := cafe ++ lit " society" in
  sql_like (lit "%" ++ [ascii_of_N 169] ++ lit "%") society = false /\
  str_contains [ascii_of_N 169] society = true /\
  sql_like (lit "caf_") cafe = true /\
  sql_like (lit "caf__") cafe = false /\
  sql_like (lit "%" ++ e_acute ++ lit "%") society = true.
Proof. vm_compute. repeat split. Qed.

(** ** Import *)

Lemma short_line_iff line :
  (length (csvParse line) <? 7)%nat = negb (has_7_columns line).
Proof.
  unfold has_7_columns.
  destruct (Nat.ltb_spec (length (csvParse line)) 7);
    destruct (Nat.leb_spec 7 (length (csvParse line))); (done || lia).
Qed.

Lemma import_loop_ok lines st :
  import_loop lines [] st =
  mkStore (books st ++ imported_rows (seq st) (List.filter has_7_columns lines))
          (seq st + Z.of_nat (length (List.filter has_7_columns lines)))
          (settings st) (in_txn st).
Proof.
  revert st. induction lines as [|line lines IH]; intros st.
  - cbn. rewrite app_nil_r, Z.add_0_r. by destruct st.
  - cbn [import_loop List.filter]. rewrite short_line_iff.
    destruct (has_7_columns line); cbn [negb].
    + cbn [hd tl add]. rewrite IH.
      cbn [books seq settings in_txn imported_rows length].
      rewrite <- app_assoc. cbn [app]. f_equal. lia.
    + apply IH.
Qed.

Lemma importCsv_ok text st :
  getlines text <> [] ->
  importCsv (Some text) [] st =
  (true,
   mkStore
     (books st ++
      imported_rows (seq st) (List.filter has_7_columns (data_lines text)))
     (seq st +
      Z.of_nat (length (List.filter has_7_columns (data_lines text))))
     (settings st) false).
Proof.
  intros Hne. unfold importCsv, data_lines.
  destruct (getlines text) as [|first rest]; [done|].
  f_equal. rewrite import_loop_ok.
  set (data := if str_contains _ _ then _ else _).
  unfold exec. cbn [in_txn books seq settings].
  by destruct (in_txn st) eqn:E; cbn [in_txn books seq settings]; rewrite ?E.
Qed.

Lemma imported_rows_spec last lines :
  Forall2 row_imported lines (imported_rows last lines).
Proof.
  revert last. induction lines as [|line lines IH]; intros last; cbn;
    constructor; [|apply IH].
  unfold row_imported, row_book. cbn.
  rewrite !std_max_spec.
  rewrite !std_clamp_spec by lia. done.
Qed.

Lemma imported_rows_ids last lines k b :
  imported_rows last lines !! k = Some b -> id b = last + 1 + Z.of_nat k.
Proof.
  revert last k. induction lines as [|line lines IH]; intros last k; [done|].
  destruct k as [|k]; cbn.
  - intros [= <-]. cbn. lia.
  - intros H%IH. lia.
Qed.

Lemma skip_space_app ws x :
  Forall (fun c => isspace c = true) ws ->
  skip_space (ws ++ x) = skip_space x.
Proof. induction 1 as [|c ws Hc _ IH]; cbn [app skip_space]; [done|]. by rewrite Hc. Qed.

Lemma take_digits_app ds rest :
  Forall (fun c => isdigit c = true) ds -> stops rest ->
  take_digits (ds ++ rest) = ds.
Proof.
  intros Hd Hr. induction Hd as [|c ds Hc _ IH]; cbn [app take_digits].
  - destruct rest as [|c r]; [done|]. cbn in *. by rewrite Hr.
  - by rewrite Hc, IH.
Qed.

Lemma stoi_digits_rest ws ds rest :
  Forall (fun c => isspace c = true) ws ->
  ds <> [] -> Forall (fun c => isdigit c = true) ds -> stops rest ->
  stoi (ws ++ ds ++ rest)
  = if is_intb (digits_value ds) then Some (digits_value ds) else None.
Proof.
  intros Hws Hne Hall Hr. unfold stoi. rewrite skip_space_app by done.
  destruct ds as [|c r]; [done|].
  pose proof (take_digits_app _ rest Hall Hr) as Ht.
  inversion Hall as [|? ? Hc _]; subst.
  cbn [app skip_space]. rewrite (isdigit_not_space c Hc).
  destruct (isdigit_not_sign c Hc) as [-> ->].
  change (c :: r ++ rest) with ((c :: r) ++ rest). by rewrite Ht.
Qed.

Lemma stoi_minus_digits_rest ws ds rest :
  Forall (fun c => isspace c = true) ws ->
  ds <> [] -> Forall (fun c => isdigit c = true) ds -> stops rest ->
  stoi (ws ++ ("-"%char :: ds) ++ rest)
  = if is_intb (- digits_value ds) then Some (- digits_value ds) else None.
Proof.
  intros Hws Hne Hall Hr. unfold stoi. rewrite skip_space_app by done.
  pose proof (take_digits_app _ rest Hall Hr) as Ht.
  cbn [app skip_space]. change (isspace "-") with false. cbn match.
  change (ch "-" "-") with true. cbn match. rewrite Ht.
  by destruct ds.
Qed.

Lemma stoi_plus_digits_rest ws ds rest :
  Forall (fun c => isspace c = true) ws ->
  ds <> [] -> Forall (fun c => isdigit c = true) ds -> stops rest ->
  stoi (ws ++ ("+"%char :: ds) ++ rest)
  = if is_intb (digits_value ds) then Some (digits_value ds) else None.
Proof.
  intros Hws Hne Hall Hr. unfold stoi. rewrite skip_space_app by done.
  pose proof (take_digits_app _ rest Hall Hr) as Ht.
  cbn [app skip_space]. change (isspace "+") with false. cbn match.
  change (ch "+" "-") with false. change (ch "+" "+") with true. cbn match.
  rewrite Ht. by destruct ds.
Qed.

(** What [strToIntSafe] makes of a numeral at the start of a text. *)
Lemma strToIntSafe_numeral ws sg d rest :
  Forall (fun c => isspace c = true) ws ->
  d <> Decimal.Nil -> stops rest ->
  strToIntSafe (ws ++ numeral sg d ++ rest)
  = if is_intb (signed sg (Z.of_uint d)) then signed sg (Z.of_uint d) else 0.
Proof.
  intros Hws Hd Hr. unfold strToIntSafe, numeral.
  assert (Hne : uint_chars d <> []) by (by intros H%uint_chars_nil).
  pose proof (uint_chars_digits d) as Hall.
  destruct sg; cbn [sign_text signed].
  - cbn [app]. rewrite stoi_digits_rest by done. rewrite digits_value_uint.
    by destruct (is_intb _).
  - change (lit "+" ++ uint_chars d) with ("+"%char :: uint_chars d).
    rewrite stoi_plus_digits_rest by done. rewrite digits_value_uint.
    by destruct (is_intb _).
  - change (lit "-" ++ uint_chars d) with ("-"%char :: uint_chars d).
    rewrite stoi_minus_digits_rest by done. rewrite digits_value_uint.
    by destruct (is_intb _).
Qed.

Lemma stoi_not_numeric s : numeric_start s = false -> stoi s = None.
Proof.
  unfold numeric_start, stoi. destruct (skip_space s) as [|c r]; [done|].
  destruct (ch c "-") eqn:Hm; [|destruct (ch c "+") eqn:Hp]; cbn.
  - destruct r as [|d r']; [done|]. cbn. by intros ->.
  - destruct r as [|d r']; [done|]. cbn. by intros ->.
  - by intros ->.
Qed.

(** C5 (amended).  An import whose INSERTs all succeed reports success.
    Its data lines are the lines after the first and, unless it holds the
    text "id,", the first line.  It skips the data lines with fewer than 7
    columns and appends one record for each other data line, in order,
    numbered on from the AUTOINCREMENT counter whatever the id column holds
    (so above every id of the table), with the total pages at least 0, the
    current page clamped to [0, totalPages] and the status clamped to
    [0, 2].  The number read from a numeric field is the one its leading
    numeral denotes (white space, an optional sign, digits), whatever
    follows the digits; it is 0 when the field does not start with a
    numeral or the numeral does not fit an [int]. *)
Theorem import_rows (text : str) (st : Store) :
  getlines text <> [] ->
  let out := importCsv (Some text) [] st in
  let valid := List.filter has_7_columns (data_lines text) in
  fst out = true /\
  (exists new,
     books (snd out) = books st ++ new /\
     Forall2 row_imported valid new /\
     (forall k b, new !! k = Some b -> id b = seq st + 1 + Z.of_nat k) /\
     Forall (fun b => 0 <= currentPage b <= totalPages b /\
                      0 <= status b <= 2) new /\
     (Forall (fun r => id r <= seq st) (books st) ->
      Forall (fun b => Forall (fun r => id r < id b) (books st)) new)) /\
  (forall ws sg d rest,
     Forall (fun c => isspace c = true) ws -> d <> Decimal.Nil -> stops rest ->
     let n := signed sg (Z.of_uint d) in
     (is_int n -> strToIntSafe (ws ++ numeral sg d ++ rest) = n) /\
     (~ is_int n -> strToIntSafe (ws ++ numeral sg d ++ rest) = 0)) /\
  (forall s, numeric_start s = false -> strToIntSafe s = 0).
Proof.
  intros Hne out valid. unfold out. rewrite (importCsv_ok text st Hne).
  cbn [fst snd books]. split; [done|]. split; [|split].
  - exists (imported_rows (seq st) valid). split; [done|].
    pose proof (imported_rows_spec (seq st) valid) as Hspec.
    split; [done|]. split; [apply imported_rows_ids|]. split.
    + clear -Hspec.
      induction Hspec as [|l b ls bs Hb _ IH]; constructor; [|done].
      destruct Hb as (_ & _ & _ & Ht & Hc & Hs). lia.
    + intros Hold. apply Forall_lookup. intros k b Hb.
      apply imported_rows_ids in Hb.
      eapply Forall_impl; [exact Hold|]. intros r Hr. cbn beta in *. lia.
  - intros ws sg d rest Hws Hd Hr.
    rewrite (strToIntSafe_numeral ws sg d rest Hws Hd Hr).
    set (n := signed sg (Z.of_uint d)). split.
    + intros Hn. by rewrite is_intb_true.
    + intros Hn. destruct (is_intb n) eqn:E; [|done].
      by apply is_intb_spec in E.
  - intros s Hs. unfold strToIntSafe. by rewrite stoi_not_numeric.
Qed.

Lemma import_rows_witness :
  getlines (lit "7,t,a,-5,20,9,x") <> [] /\
  fst (importCsv (Some (lit "7,t,a,-5,20,9,x")) [] shelf) = true /\
  strToIntSafe (lit " +0042nd") = 42.
Proof.
  assert (H : getlines (lit "7,t,a,-5,20,9,x") <> []) by (vm_compute; discriminate).
  split; [exact H|].
  pose proof (import_rows (lit "7,t,a,-5,20,9,x") shelf H) as (Hok & _ & Hnum & _).
  split; [exact Hok|].
  refine (proj1 (Hnum (lit " ") PlusSign
                   (Decimal.D0 (Decimal.D0 (Decimal.D4 (Decimal.D2 Decimal.Nil))))
                   (lit "nd") _ _ _) _).
  - repeat constructor.
  - discriminate.
  - reflexivity.
  - unfold is_int, INT_MIN, INT_MAX. cbn. lia.
Defined.

(** C5 (counterexample).  A file without header whose only row holds the
    author "David" has 7 columns, and the import reports success without
    inserting the row: the row holds the text "id,", by which the code
    tells a header.  And a total-pages field "300pages", which is no
    number, is not read as 0: the row is inserted with 300 pages, 12 of
    them read. *)
Lemma import_row_not_inserted :
  let row := lit "7,Emma,David,100,10,1," in
  getlines row = [row] /\
  has_7_columns row = true /\
  importCsv (Some row) [] empty_store = (true, empty_store) /\
  map (fun b => (totalPages b, currentPage b))
      (books (snd (importCsv (Some (lit "1,T,A,300pages,12abc,1,x")) []
                     empty_store)))
  = [(300, 12)].
Proof. vm_compute. repeat split. Qed.

(** ** Atomicity of the import *)

(** A failing INSERT costs its own row and nothing else. *)
Lemma import_loop_failed_insert line lines rcs st :
  has_7_columns line = true ->
  import_loop (line :: lines) (SQLITE_ERROR :: rcs) st = import_loop lines rcs st.
Proof.
  intros H. cbn [import_loop]. by rewrite short_line_iff, H.
Qed.

(** Whatever the result codes, the import commits the rows whose INSERT
    went through. *)
Lemma import_loop_kept lines rcs st :
  import_loop lines rcs st =
  mkStore (books st ++ imported_rows (seq st) (kept_lines lines rcs))
          (seq st + Z.of_nat (length (kept_lines lines rcs)))
          (settings st) (in_txn st).
Proof.
  revert rcs st. induction lines as [|line lines IH]; intros rcs st.
  - cbn. rewrite app_nil_r, Z.add_0_r. by destruct st.
  - cbn [import_loop kept_lines]. rewrite short_line_iff.
    destruct (has_7_columns line); cbn [negb]; [|apply IH].
    destruct (hd SQLITE_OK rcs); cbn [add]; rewrite IH; [|done].
    cbn [books seq settings in_txn imported_rows length].
    rewrite <- app_assoc. cbn [app]. f_equal. lia.
Qed.

Lemma importCsv_kept text rcs st :
  getlines text <> [] ->
  books (snd (importCsv (Some text) rcs st))
  = books st ++ imported_rows (seq st) (kept_lines (data_lines text) rcs).
Proof.
  intros Hne. unfold importCsv, data_lines.
  destruct (getlines text) as [|first rest]; [done|].
  cbn [snd]. rewrite import_loop_kept.
  unfold exec. cbn [in_txn books seq settings].
  by destruct (in_txn st) eqn:E; cbn [in_txn books seq settings]; rewrite ?E.
Qed.

(** C1 (failing input).  The file holds three well-formed rows and the
    second INSERT fails.  [importCsv] ignores the result of [add] and runs
    COMMIT all the same: it reports success and the table has gained the
    first and the third row, neither all three nor none. *)
Theorem importCsv_partial_commit :
  let out := importCsv (Some three_rows_csv)
                       [SQLITE_OK; SQLITE_ERROR; SQLITE_OK] empty_store in
  List.filter has_7_columns (data_lines three_rows_csv)
  = [lit "1,First,A,100,10,1,"; lit "2,Second,B,200,20,1,";
     lit "3,Third,C,300,30,1,"] /\
  fst out = true /\
  in_txn (snd out) = false /\
  map title (books (snd out)) = [lit "First"; lit "Third"] /\
  books (snd out) <> books empty_store.
Proof. vm_compute. repeat split; congruence. Qed.

(** ** CSV quoting and parsing *)

Lemma csvQuote_acc s acc :
  fold_left
    (fun out c => if ch c dquote then out ++ [dquote; dquote] else out ++ [c])
    s acc
  = acc ++ quote_body s.
Proof.
  revert acc. induction s as [|c r IH]; intros acc; cbn [fold_left quote_body].
  - by rewrite app_nil_r.
  - destruct (ch c dquote); rewrite IH; by rewrite <- app_assoc.
Qed.

Lemma csvQuote_spec s : csvQuote s = dquote :: quote_body s ++ [dquote].
Proof. unfold csvQuote. by rewrite csvQuote_acc. Qed.

Lemma csvParse_loop_quoted s cols cur tail :
  closes tail ->
  csvParse_loop cols cur true (quote_body s ++ dquote :: tail)
  = csvParse_loop cols (cur ++ s) false tail.
Proof.
  intros Htail. revert cur. induction s as [|c r IH]; intros cur.
  - cbn [quote_body app csvParse_loop]. change (ch dquote dquote) with true.
    cbn match. rewrite app_nil_r.
    destruct tail as [|c' t]; [done|]. unfold closes in Htail. by rewrite Htail.
  - cbn [quote_body]. destruct (ch c dquote) eqn:Hc.
    + cbn [app csvParse_loop]. change (ch dquote dquote) with true. cbn match.
      rewrite IH, <- app_assoc. cbn [app].
      apply Ascii.eqb_eq in Hc. by subst c.
    + cbn [app csvParse_loop]. rewrite Hc, IH, <- app_assoc. done.
Qed.

Lemma csvParse_loop_field s cols cur tail :
  closes tail ->
  csvParse_loop cols cur false (csvQuote s ++ tail)
  = csvParse_loop cols (cur ++ s) false tail.
Proof.
  intros Htail. rewrite csvQuote_spec. cbn [app csvParse_loop].
  change (ch dquote comma) with false. change (ch dquote dquote) with true.
  cbn match. rewrite <- app_assoc. cbn [app].
  by apply csvParse_loop_quoted.
Qed.

Lemma csvParse_loop_plain s cols cur tail :
  no_char comma s -> no_char dquote s ->
  csvParse_loop cols cur false (s ++ tail)
  = csvParse_loop cols (cur ++ s) false tail.
Proof.
  intros Hc Hq. revert cur.
  induction s as [|c r IH]; intros cur; cbn [app].
  - by rewrite app_nil_r.
  - inversion Hc as [|? ? Hc1 Hc2]; inversion Hq as [|? ? Hq1 Hq2]; subst.
    cbn [csvParse_loop]. rewrite Hc1, Hq1, IH by done.
    by rewrite <- app_assoc.
Qed.

Lemma csvParse_loop_number z cols tail :
  csvParse_loop cols [] false (to_string z ++ comma :: tail)
  = csvParse_loop (cols ++ [to_string z]) [] false tail.
Proof.
  rewrite csvParse_loop_plain by (by apply to_string_no_char).
  cbn [app csvParse_loop]. by change (ch comma comma) with true.
Qed.

Lemma csvParse_loop_text s cols tail :
  csvParse_loop cols [] false (csvQuote s ++ comma :: tail)
  = csvParse_loop (cols ++ [s]) [] false tail.
Proof.
  rewrite csvParse_loop_field by done.
  cbn [app csvParse_loop]. by change (ch comma comma) with true.
Qed.

Lemma csvParse_quote s : csvParse (csvQuote s) = [s].
Proof.
  unfold csvParse. rewrite <- (app_nil_r (csvQuote s)).
  by rewrite csvParse_loop_field.
Qed.

Lemma csvParse_csv_line b :
  csvParse (csv_line b) =
  [to_string (id b); title b; author b; to_string (totalPages b);
   to_string (currentPage b); to_string (status b); isbn b].
Proof.
  unfold csvParse, csv_line. cbn [app].
  rewrite csvParse_loop_number, csvParse_loop_text, csvParse_loop_text.
  rewrite !csvParse_loop_number.
  rewrite <- (app_nil_r (csvQuote (isbn b))).
  by rewrite csvParse_loop_field.
Qed.

(** ** Lines *)

Lemma getlines_line l rest :
  no_char nl l -> getlines (l ++ nl :: rest) = l :: getlines rest.
Proof.
  induction 1 as [|c r Hc _ IH]; cbn [app getlines].
  - by change (ch nl nl) with true.
  - by rewrite Hc, IH.
Qed.

Lemma quote_body_no_char x s :
  ch dquote x = false -> no_char x s -> no_char x (quote_body s).
Proof.
  intros Hx. induction 1 as [|c r Hc _ IH]; cbn [quote_body]; [constructor|].
  destruct (ch c dquote); repeat constructor; done.
Qed.

Lemma csvQuote_no_nl s : no_char nl s -> no_char nl (csvQuote s).
Proof.
  intros H. rewrite csvQuote_spec. constructor; [done|].
  apply Forall_app. split; [by apply quote_body_no_char|by repeat constructor].
Qed.

Lemma csv_row_line b : csv_row b = csv_line b ++ [nl].
Proof. unfold csv_row, csv_line. by rewrite <- !app_assoc. Qed.

Lemma csv_line_no_nl b :
  no_char nl (title b) -> no_char nl (author b) -> no_char nl (isbn b) ->
  no_char nl (csv_line b).
Proof.
  intros Ht Ha Hi. unfold csv_line, no_char. rewrite !Forall_app.
  repeat split;
    try (by apply to_string_no_char); try (by apply csvQuote_no_nl);
    by repeat constructor.
Qed.

(** ** Export *)

Lemma export_acc rows out :
  fold_left (fun out b => out ++ csv_row b) rows out
  = out ++ concat (map csv_row rows).
Proof.
  revert out. induction rows as [|b rows IH]; intros out; cbn [fold_left map concat].
  - by rewrite app_nil_r.
  - by rewrite IH, <- app_assoc.
Qed.

Lemma getlines_rows rows :
  Forall (fun b => no_char nl (csv_line b)) rows ->
  getlines (concat (map csv_row rows)) = map csv_line rows.
Proof.
  induction 1 as [|b rows Hb _ IH]; [done|].
  cbn [map concat]. rewrite csv_row_line, <- app_assoc. cbn [app].
  by rewrite getlines_line, IH.
Qed.

Lemma has_7_columns_csv_line b : has_7_columns (csv_line b) = true.
Proof. unfold has_7_columns. by rewrite csvParse_csv_line. Qed.

Lemma filter_all {A} (f : A -> bool) l :
  Forall (fun x => f x = true) l -> List.filter f l = l.
Proof. induction 1 as [|x l Hx _ IH]; cbn; [done|]. by rewrite Hx, IH. Qed.

Lemma round_trips_spec b :
  round_trips b = true ->
  (no_char zero (title b) /\ no_char nl (title b)) /\
  (no_char zero (author b) /\ no_char nl (author b)) /\
  (no_char zero (isbn b) /\ no_char nl (isbn b)) /\
  0 <= currentPage b <= totalPages b /\ totalPages b <= INT_MAX /\
  0 <= status b <= 2.
Proof.
  unfold round_trips. rewrite !andb_true_iff, !free_of_no_char, !Z.leb_le.
  intros H. destruct_and!. repeat split; (done || lia).
Qed.

Lemma row_book_csv_line b :
  round_trips b = true ->
  row_book (csvParse (csv_line b)) =
  mkBook 0 (title b) (author b) (totalPages b) (currentPage b) (status b) (isbn b).
Proof.
  intros (_ & _ & _ & Hc & Ht & Hs)%round_trips_spec.
  rewrite csvParse_csv_line. unfold row_book, strToIntSafe. cbn [nth].
  unfold INT_MAX in *.
  rewrite !stoi_to_string by (unfold is_int, INT_MIN, INT_MAX; lia).
  cbn [default from_option]. unfold Datatypes.id.
  rewrite std_max_spec, !std_clamp_spec by lia.
  f_equal; lia.
Qed.

Lemma imported_rows_csv_lines last rows :
  Forall (fun b => round_trips b = true) rows ->
  Forall2 same_content rows (imported_rows last (map csv_line rows)).
Proof.
  intros H. revert last. induction H as [|b rows Hb _ IH]; intros last;
    cbn [map imported_rows]; constructor; [|apply IH].
  rewrite (row_book_csv_line b Hb). cbn.
  apply round_trips_spec in Hb as ((? & _) & (? & _) & (? & _) & _).
  unfold same_content. cbn. by rewrite !c_str_no_nul.
Qed.

(** ** Round trip *)

Lemma imported_rows_consecutive last lines :
  consecutive_ids (last + 1) (imported_rows last lines).
Proof. intros k b H. by apply imported_rows_ids in H. Qed.

Lemma read_row_content r :
  round_trips r = true ->
  read_row r = mkBook (wrap32 (id r)) (title r) (author r) (totalPages r)
                      (currentPage r) (status r) (isbn r).
Proof.
  intros ((? & _) & (? & _) & (? & _) & Hc & Ht & Hs)%round_trips_spec.
  unfold read_row, INT_MAX in *.
  rewrite !c_str_no_nul by done.
  by rewrite (wrap32_small (totalPages r)), (wrap32_small (currentPage r)),
    (wrap32_small (status r)) by (unfold is_int, INT_MIN, INT_MAX; lia).
Qed.

Lemma round_trips_content a b :
  same_content a b -> round_trips a = true -> round_trips b = true.
Proof.
  intros (Ht & Ha & Hp & Hc & Hs & Hi). unfold round_trips.
  by rewrite Ht, Ha, Hp, Hc, Hs, Hi.
Qed.

Lemma read_row_same_content r :
  round_trips r = true -> same_content r (read_row r).
Proof. intros H. by rewrite (read_row_content r H). Qed.

Lemma same_content_trans a b c :
  same_content a b -> same_content b c -> same_content a c.
Proof. unfold same_content. intros H1 H2. destruct_and!. repeat split; congruence. Qed.

Lemma list_books_all st :
  list_books SQLITE_OK None st = map read_row (order_by_id (books st)).
Proof.
  unfold list_books. by rewrite filter_all by (by apply Forall_true).
Qed.

Lemma list_books_round_trips st :
  Forall (fun b => round_trips b = true) (books st) ->
  Forall (fun b => round_trips b = true) (list_books SQLITE_OK None st).
Proof.
  intros H. rewrite list_books_all. apply Forall_map.
  eapply Forall_impl; [apply order_by_id_Forall, H|].
  intros r Hr. cbn beta in *.
  apply (round_trips_content r); [by apply read_row_same_content|done].
Qed.

Lemma exportCsv_lines st :
  Forall (fun b => round_trips b = true) (books st) ->
  getlines (exportCsv SQLITE_OK st)
  = csv_header :: map csv_line (list_books SQLITE_OK None st).
Proof.
  intros H%list_books_round_trips. unfold exportCsv.
  rewrite export_acc, <- app_assoc. cbn [app].
  rewrite getlines_line by (by repeat constructor).
  rewrite getlines_rows; [done|].
  eapply Forall_impl; [exact H|]. intros b Hb. cbn.
  apply round_trips_spec in Hb as ((_ & ?) & (_ & ?) & (_ & ?) & _).
  by apply csv_line_no_nl.
Qed.

Lemma export_import st st0 :
  Forall (fun b => round_trips b = true) (books st) ->
  importCsv (Some (exportCsv SQLITE_OK st)) [] st0 =
  (true,
   mkStore (books st0 ++
            imported_rows (seq st0) (map csv_line (list_books SQLITE_OK None st)))
           (seq st0 + Z.of_nat (length (list_books SQLITE_OK None st)))
           (settings st0) false).
Proof.
  intros H. pose proof (exportCsv_lines st H) as Hlines.
  rewrite importCsv_ok by (by rewrite Hlines).
  unfold data_lines. rewrite Hlines.
  change (str_contains (lit "id,") csv_header) with true. cbn match.
  rewrite filter_all.
  - by rewrite length_map.
  - apply Forall_map, Forall_true. intros b. apply has_7_columns_csv_line.
Qed.

(** C3 (amended).  Take a store whose records hold text without NUL or line
    break, a current page within [0, totalPages] and a status within
    [0, 2].  Exporting it and importing the file into a store with no
    record succeeds and yields, in the same order, records with the same
    title, author, total pages, current page, status and ISBN, under ids
    numbered on from the AUTOINCREMENT counter of the importing store.
    Every field is written between quotes with its quotes doubled, and
    parsing a quoted field gives the field back. *)
Theorem export_import_round_trip (st st0 : Store) :
  Forall (fun b => round_trips b = true) (books st) ->
  books st0 = [] ->
  let out := importCsv (Some (exportCsv SQLITE_OK st)) [] st0 in
  fst out = true /\
  Forall2 same_content (list_books SQLITE_OK None st)
                       (list_books SQLITE_OK None (snd out)) /\
  consecutive_ids (seq st0 + 1) (books (snd out)) /\
  (forall s, csvQuote s = [dquote] ++ quote_body s ++ [dquote] /\
             csvParse (csvQuote s) = [s]).
Proof.
  intros Hst Hempty out. unfold out. rewrite (export_import st st0 Hst).
  cbn [fst snd books]. rewrite Hempty. cbn [app].
  pose proof (list_books_round_trips st Hst) as Hrows.
  set (rows := list_books SQLITE_OK None st) in *.
  pose proof (imported_rows_csv_lines (seq st0) rows Hrows) as Hsame.
  pose proof (imported_rows_consecutive (seq st0) (map csv_line rows)) as Hids.
  set (new := imported_rows (seq st0) (map csv_line rows)) in *.
  split; [done|]. split; [|split; [done|]].
  - rewrite list_books_all. cbn [books].
    rewrite (order_by_id_consecutive _ _ Hids).
    clear Hids. induction Hsame as [|a b l l' Hab _ IH]; cbn [map]; [constructor|].
    inversion Hrows; subst. constructor; [|by apply IH].
    apply (same_content_trans _ b); [done|].
    apply read_row_same_content. by apply (round_trips_content a).
  - intros s. split; [apply csvQuote_spec|apply csvParse_quote].
Qed.

Lemma export_import_round_trip_witness :
  Forall2 same_content
    (list_books SQLITE_OK None shelf)
    (list_books SQLITE_OK None
       (snd (importCsv (Some (exportCsv SQLITE_OK shelf)) [] empty_store))).
Proof.
  refine (proj1 (proj2 (export_import_round_trip shelf empty_store _ _))).
  - repeat constructor.
  - reflexivity.
Defined.

(** C3 (counterexample).  A record 400 pages into a 310-page book comes
    back at page 310. *)
Lemma export_import_clamps :
  books overdue_shelf <> [] /\
  ~ Forall2 same_content
      (list_books SQLITE_OK None overdue_shelf)
      (list_books SQLITE_OK None
         (snd (importCsv (Some (exportCsv SQLITE_OK overdue_shelf)) []
                 empty_store))).
Proof.
  split; [vm_compute; discriminate|].
  vm_compute. intros H. inversion H as [|a b l l' Hab _]; subst.
  destruct Hab as (_ & _ & _ & Hc & _). discriminate Hc.
Qed.

(** ** Insert, lookup and delete *)

Lemma storable_spec b :
  storable b = true ->
  (no_char zero (title b) /\ no_char zero (author b) /\ no_char zero (isbn b)) /\
  is_int (totalPages b) /\ is_int (currentPage b) /\ is_int (status b).
Proof.
  unfold storable. rewrite !andb_true_iff, !free_of_no_char, !is_intb_spec.
  intros H. destruct_and!. done.
Qed.

Lemma read_row_storable b :
  storable b = true -> is_int (id b) -> read_row b = b.
Proof.
  intros ((? & ? & ?) & ? & ? & ?)%storable_spec Hid. unfold read_row.
  rewrite !c_str_no_nul, !wrap32_small by done. by destruct b.
Qed.

Lemma find_id_none bid l :
  Forall (fun r => id r <> bid) l -> List.find (fun r => id r =? bid) l = None.
Proof.
  induction 1 as [|r l Hr _ IH]; cbn; [done|].
  by rewrite (proj2 (Z.eqb_neq _ _) Hr).
Qed.

Lemma find_id_app bid l1 l2 :
  List.find (fun r => id r =? bid) (l1 ++ l2)
  = match List.find (fun r => id r =? bid) l1 with
    | Some r => Some r
    | None => List.find (fun r => id r =? bid) l2
    end.
Proof.
  induction l1 as [|r l1 IH]; cbn; [done|]. by destruct (id r =? bid).
Qed.

Lemma find_id_filter_other bid bid' l :
  bid' <> bid ->
  List.find (fun r => id r =? bid') (List.filter (fun r => negb (id r =? bid)) l)
  = List.find (fun r => id r =? bid') l.
Proof.
  intros Hne. induction l as [|r l IH]; cbn; [done|].
  destruct (Z.eqb_spec (id r) bid) as [E|E]; cbn.
  - rewrite IH. by rewrite (proj2 (Z.eqb_neq (id r) bid')) by lia.
  - by rewrite IH.
Qed.

Lemma find_id_filter_same bid l :
  List.find (fun r => id r =? bid) (List.filter (fun r => negb (id r =? bid)) l)
  = None.
Proof.
  apply find_id_none. induction l as [|r l IH]; cbn; [constructor|].
  destruct (Z.eqb_spec (id r) bid); cbn; [done|by constructor].
Qed.



(** X2.  After a successful [remove] of an id, [get] of that id finds
    nothing and [get] of any other id finds what it found before. *)
Theorem remove_then_get (bid bid' : Z) (rc : sqlite_rc) (st : Store) :
  get rc bid (snd (remove SQLITE_OK bid st)) = None /\
  (bid' <> bid ->
   get rc bid' (snd (remove SQLITE_OK bid st)) = get rc bid' st).
Proof.
  unfold get. destruct rc; [|done]. cbn [remove snd set_books books]. split.
  - by rewrite find_id_filter_same.
  - intros Hne. by rewrite find_id_filter_other.
Qed.

(** X3.  An id is never handed out again: when a record is removed and
    another one added, in a store whose rowids the counter bounds, the new
    record takes a rowid above the removed one and [get] of the removed id
    still finds nothing. *)
Theorem removed_id_not_reused (bid : Z) (b : Book) (st : Store) :
  ids_bounded st -> bid <= seq st ->
  let st' := snd (add SQLITE_OK b (snd (remove SQLITE_OK bid st))) in
  seq st' = seq st + 1 /\ bid < seq st' /\ get SQLITE_OK bid st' = None.
Proof.
  intros Hb Hle st'. unfold st', get. cbn [add remove snd set_books books seq].
  split; [done|]. split; [lia|].
  rewrite find_id_app, find_id_filter_same. cbn [List.find id].
  by rewrite (proj2 (Z.eqb_neq (seq st + 1) bid)) by lia.
Qed.

Lemma removed_id_not_reused_witness :
  get SQLITE_OK 1
      (snd (add SQLITE_OK big_book (snd (remove SQLITE_OK 1 shelf)))) = None.
Proof.
  refine (proj2 (proj2 (removed_id_not_reused 1 big_book shelf _ _))).
  - repeat constructor; cbn; lia.
  - cbn; lia.
Defined.

(** ** Updates of other and of missing ids *)

Lemma find_id_map_other (f : Book -> Book) bid bid' l :
  bid' <> bid -> (forall r, id (f r) = id r) ->
  List.find (fun r => id r =? bid')
            (map (fun r => if id r =? bid then f r else r) l)
  = List.find (fun r => id r =? bid') l.
Proof.
  intros Hne Hf. induction l as [|r l IH]; cbn; [done|].
  destruct (Z.eqb_spec (id r) bid) as [E|E].
  - rewrite Hf, IH. by rewrite (proj2 (Z.eqb_neq (id r) bid')) by lia.
  - by rewrite IH.
Qed.

Lemma map_id_absent (f : Book -> Book) bid l :
  List.find (fun r => id r =? bid) l = None ->
  map (fun r => if id r =? bid then f r else r) l = l.
Proof.
  induction l as [|r l IH]; cbn; [done|].
  destruct (id r =? bid); [done|]. intros H. by rewrite IH.
Qed.

Lemma get_none_find bid st :
  get SQLITE_OK bid st = None ->
  List.find (fun r => id r =? bid) (books st) = None.
Proof. unfold get. by destruct (List.find _ _). Qed.

(** X4.  [updateProgress] and [updateStatus] touch one id: [get] of any
    other id finds what it found before.  For an id that is not in the
    table they still report success, and the database is unchanged. *)
Theorem update_frame (bid bid' p s : Z) (rc : sqlite_rc) (st : Store) :
  (bid' <> bid ->
   get rc bid' (snd (updateProgress SQLITE_OK bid p s st)) = get rc bid' st /\
   get rc bid' (snd (updateStatus SQLITE_OK bid s st)) = get rc bid' st) /\
  (get SQLITE_OK bid st = None ->
   updateProgress SQLITE_OK bid p s st = (true, st) /\
   updateStatus SQLITE_OK bid s st = (true, st)).
Proof.
  split.
  - intros Hne. unfold get. destruct rc; [|done].
    cbn [updateProgress updateStatus snd set_books books].
    by rewrite !find_id_map_other.
  - intros Hnone%get_none_find. unfold updateProgress, updateStatus, set_books.
    rewrite !map_id_absent by done. by destruct st.
Qed.

(** ** Well-formed stores *)

Lemma sorted_ids_map (f : Book -> Book) l :
  (forall r, id (f r) = id r) ->
  StronglySorted (fun a b => id a < id b) l ->
  StronglySorted (fun a b => id a < id b) (map f l).
Proof.
  intros Hf. induction 1 as [|r l Hl IH Hr]; cbn; constructor; [done|].
  apply Forall_map. eapply Forall_impl; [exact Hr|].
  intros x Hx. cbn. by rewrite !Hf.
Qed.

Lemma sorted_ids_filter (f : Book -> bool) l :
  StronglySorted (fun a b => id a < id b) l ->
  StronglySorted (fun a b => id a < id b) (List.filter f l).
Proof.
  induction 1 as [|r l Hl IH Hr]; cbn; [constructor|].
  destruct (f r); [|done]. constructor; [done|].
  clear -Hr. induction Hr as [|x l Hx _ IH]; cbn; [constructor|].
  destruct (f x); [by constructor|done].
Qed.

Lemma sorted_ids_snoc l b :
  StronglySorted (fun a b => id a < id b) l ->
  Forall (fun r => id r < id b) l ->
  StronglySorted (fun a b => id a < id b) (l ++ [b]).
Proof.
  induction 1 as [|r l Hl IH Hr]; intros Hb; cbn.
  - by repeat constructor.
  - inversion Hb as [|? ? Hrb Hlb]; subst. constructor; [by apply IH|].
    apply Forall_app. split; [done|by repeat constructor].
Qed.

Lemma empty_store_wf : store_wf empty_store.
Proof. split; constructor. Qed.

Lemma add_wf rc b st : store_wf st -> store_wf (snd (add rc b st)).
Proof.
  intros [Hs Hb]. split; [|by apply add_bounded].
  destruct rc; [|done]. cbn. apply sorted_ids_snoc; [done|].
  eapply Forall_impl; [exact Hb|]. intros r Hr. cbn in *. lia.
Qed.

Lemma updateProgress_wf rc bid p s st :
  store_wf st -> store_wf (snd (updateProgress rc bid p s st)).
Proof.
  intros [Hs Hb]. split; [|by apply updateProgress_bounded].
  destruct rc; [|done]. cbn. apply sorted_ids_map; [|done].
  intros r. by destruct (id r =? bid).
Qed.

Lemma updateStatus_wf rc bid s st :
  store_wf st -> store_wf (snd (updateStatus rc bid s st)).
Proof.
  intros [Hs Hb]. split; [|by apply updateStatus_bounded].
  destruct rc; [|done]. cbn. apply sorted_ids_map; [|done].
  intros r. by destruct (id r =? bid).
Qed.

Lemma remove_wf rc bid st : store_wf st -> store_wf (snd (remove rc bid st)).
Proof.
  intros [Hs Hb]. split; [|by apply remove_bounded].
  destruct rc; [|done]. cbn. by apply sorted_ids_filter.
Qed.

Lemma setDailyRate_wf rc r st :
  store_wf st -> store_wf (snd (setDailyRate rc r st)).
Proof. intros H. by destruct rc. Qed.

Lemma exec_wf cmd st : store_wf st -> store_wf (exec cmd st).
Proof. unfold store_wf, ids_bounded, exec. by destruct cmd, (in_txn st). Qed.

Lemma import_loop_wf lines rcs st :
  store_wf st -> store_wf (import_loop lines rcs st).
Proof.
  revert rcs st. induction lines as [|line lines IH]; intros rcs st H; [done|].
  cbn [import_loop]. destruct (_ <? _)%nat; [by apply IH|].
  destruct (add (hd SQLITE_OK rcs) (row_book (csvParse line)) st) as [i st'] eqn:E.
  apply IH. change st' with (snd (i, st')). rewrite <- E. by apply add_wf.
Qed.

Lemma importCsv_wf file rcs st :
  store_wf st -> store_wf (snd (importCsv file rcs st)).
Proof.
  intros H. unfold importCsv. destruct file as [text|]; [|done].
  destruct (getlines text) as [|line data]; [done|]. cbn [snd].
  by apply exec_wf, import_loop_wf, exec_wf.
Qed.

(** X5.  The empty database is well formed, and every operation of the
    storage, whether its statements succeed or fail, keeps the database
    well formed: rows in strictly ascending order of rowid, none above the
    AUTOINCREMENT counter. *)
Theorem store_wf_preserved (st : Store) :
  store_wf st ->
  store_wf empty_store /\
  (forall rc b, store_wf (snd (add rc b st))) /\
  (forall rc bid p s, store_wf (snd (updateProgress rc bid p s st))) /\
  (forall rc bid s, store_wf (snd (updateStatus rc bid s st))) /\
  (forall rc bid, store_wf (snd (remove rc bid st))) /\
  (forall rc r, store_wf (snd (setDailyRate rc r st))) /\
  (forall file rcs, store_wf (snd (importCsv file rcs st))).
Proof.
  intros H. split; [apply empty_store_wf|].
  split; [intros; by apply add_wf|].
  split; [intros; by apply updateProgress_wf|].
  split; [intros; by apply updateStatus_wf|].
  split; [intros; by apply remove_wf|].
  split; [intros; by apply setDailyRate_wf|].
  intros; by apply importCsv_wf.
Qed.

Lemma store_wf_preserved_witness :
  store_wf empty_store /\ store_wf shelf.
Proof.
  split; [exact empty_store_wf|].
  exact (proj1 (proj2 (store_wf_preserved
           (snd (add SQLITE_OK the_hobbit empty_store))
           (proj1 (proj2 (store_wf_preserved empty_store empty_store_wf))
                  SQLITE_OK the_hobbit)))
         SQLITE_OK big_book).
Defined.

(** ** Listing *)

Lemma sorted_ids_weaken l :
  StronglySorted (fun a b => id a < id b) l ->
  order_by_id l = l.
Proof.
  induction 1 as [|r l Hl IH Hr]; [done|].
  cbn [order_by_id fold_right]. fold (order_by_id l). rewrite IH.
  destruct l as [|x l']; [done|]. cbn [insert_by_id].
  inversion Hr; subst. by rewrite (proj2 (Z.leb_le (id r) (id x))) by lia.
Qed.



(** ** Search: the empty query and the case of the query *)

Lemma sql_like_two_percent s : sql_like (lit "%%") s = true.
Proof.
  unfold sql_like. change (utf8_chars (lit "%%")) with [37; 37].
  destruct (utf8_chars s) as [|c l]; [done|].
  by rewrite like_chars_percent_cons, like_chars_percent_only.
Qed.

(** X7.  The empty query matches every record: [search] of the empty text
    returns what [list] without filter returns. *)
Theorem search_empty_query (rc : sqlite_rc) (st : Store) :
  search rc [] st = list_books rc None st.
Proof.
  unfold search, list_books. destruct rc; [|done].
  change (c_str (lower (lit "%" ++ [] ++ lit "%"))) with (lit "%%").
  change (SQLITE_MAX_LIKE_PATTERN_LENGTH <? _) with false. cbn match.
  do 2 f_equal. apply filter_ext_bool. intros r.
  by rewrite sql_like_two_percent.
Qed.

(** X8.  The case of the query does not matter, whatever it contains:
    [search] of a query and of the query in lower case return the same
    records. *)
Theorem search_query_case (rc : sqlite_rc) (q : str) (st : Store) :
  search rc (lower q) st = search rc q st.
Proof.
  unfold search. destruct rc; [|done].
  assert (E : lower (lit "%" ++ lower q ++ lit "%") = lower (lit "%" ++ q ++ lit "%")).
  { unfold lower. rewrite !map_app, map_map.
    do 2 f_equal. apply map_ext. intros c. apply tolower_idempotent. }
  by rewrite E.
Qed.

(** ** Daily rate: last write wins, books apart *)

(** X9.  The setting is an upsert: after two successful [setDailyRate] the
    rate read back is the second one (at least 0), and the books table is
    as it was; adding, updating or removing a book does not change the rate
    read back. *)
Theorem dailyRate_upsert (r1 r2 : Z) (st : Store) :
  is_int r2 ->
  let st2 := snd (setDailyRate SQLITE_OK r2 (snd (setDailyRate SQLITE_OK r1 st))) in
  getDailyRate SQLITE_OK st2 = Z.max 0 r2 /\
  books st2 = books st /\ seq st2 = seq st /\
  (forall rc rc' b, getDailyRate rc (snd (add rc' b st)) = getDailyRate rc st) /\
  (forall rc rc' bid p s,
     getDailyRate rc (snd (updateProgress rc' bid p s st)) = getDailyRate rc st) /\
  (forall rc rc' bid s,
     getDailyRate rc (snd (updateStatus rc' bid s st)) = getDailyRate rc st) /\
  (forall rc rc' bid,
     getDailyRate rc (snd (remove rc' bid st)) = getDailyRate rc st).
Proof.
  intros Hr st2. split.
  - unfold st2, getDailyRate. cbn [setDailyRate snd settings].
    rewrite lookup_insert_eq, c_str_idempotent, c_str_to_string, stoi_to_string.
    + cbn. rewrite !std_max_spec. lia.
    + rewrite std_max_spec. unfold is_int, INT_MIN, INT_MAX in *. lia.
  - split; [done|]. split; [done|].
    repeat split; intros; unfold getDailyRate; by destruct rc, rc'.
Qed.

Lemma dailyRate_upsert_witness :
  getDailyRate SQLITE_OK
    (snd (setDailyRate SQLITE_OK 25 (snd (setDailyRate SQLITE_OK 40 shelf))))
  = 25.
Proof.
  refine (proj1 (dailyRate_upsert 40 25 shelf _)).
  unfold is_int, INT_MIN, INT_MAX; lia.
Defined.

(** ** CSV: any fields, and lines without quotes *)

Lemma csvParse_loop_quoted_fields fs cols :
  fs <> [] ->
  csvParse_loop cols [] false (join_commas (map csvQuote fs)) = cols ++ fs.
Proof.
  revert cols. induction fs as [|f fs IH]; intros cols Hne; [done|].
  destruct fs as [|g fs].
  - cbn [map join_commas]. rewrite <- (app_nil_r (csvQuote f)).
    by rewrite csvParse_loop_field.
  - change (join_commas (map csvQuote (f :: g :: fs)))
      with (csvQuote f ++ comma :: join_commas (map csvQuote (g :: fs))).
    rewrite csvParse_loop_text, IH by done. by rewrite <- app_assoc.
Qed.

(** X10.  [csvParse] undoes [csvQuote] field by field: for any fields, be
    there commas, quotes or line breaks in them, parsing the quoted fields
    joined by commas gives the fields back. *)
Theorem csvParse_quoted_fields (fs : list str) :
  fs <> [] -> csvParse (join_commas (map csvQuote fs)) = fs.
Proof. intros H. unfold csvParse. by rewrite csvParse_loop_quoted_fields. Qed.

Lemma csvParse_quoted_fields_witness :
  csvParse (join_commas (map csvQuote [title big_book; lit "a,b"; []]))
  = [title big_book; lit "a,b"; []].
Proof.
  apply (csvParse_quoted_fields [title big_book; lit "a,b"; []]).
  discriminate.
Defined.

Lemma join_commas_snoc cols x :
  cols <> [] -> join_commas (cols ++ [x]) = join_commas cols ++ comma :: x.
Proof.
  induction cols as [|c cols IH]; intros Hne; [done|].
  destruct cols as [|d cols]; [done|].
  change (join_commas ((c :: d :: cols) ++ [x]))
    with (c ++ comma :: join_commas ((d :: cols) ++ [x])).
  rewrite IH by done.
  change (join_commas (c :: d :: cols)) with (c ++ comma :: join_commas (d :: cols)).
  by rewrite <- List.app_assoc.
Qed.

Lemma join_commas_last cols cur c :
  join_commas (cols ++ [cur ++ [c]]) = join_commas (cols ++ [cur]) ++ [c].
Proof.
  destruct cols as [|d cols]; [done|].
  rewrite !join_commas_snoc by done. by rewrite <- !app_assoc.
Qed.

Lemma csvParse_loop_unquoted rest cols cur :
  no_char dquote rest ->
  join_commas (csvParse_loop cols cur false rest)
  = join_commas (cols ++ [cur]) ++ rest /\
  length (csvParse_loop cols cur false rest)
  = (length cols + 1 + length (List.filter (fun c => ch c comma) rest))%nat.
Proof.
  intros H. revert cols cur. induction H as [|c rest Hc _ IH]; intros cols cur.
  - cbn. rewrite app_nil_r, length_app. cbn. split; [done|lia].
  - cbn [csvParse_loop List.filter]. rewrite Hc.
    destruct (ch c comma) eqn:Hcomma.
    + destruct (IH (cols ++ [cur]) []) as [-> ->].
      apply Ascii.eqb_eq in Hcomma. subst c.
      rewrite join_commas_snoc by (by destruct cols).
      rewrite <- app_assoc, length_app. cbn. split; [done|lia].
    + destruct (IH cols (cur ++ [c])) as [-> ->].
      rewrite join_commas_last, <- app_assoc. done.
Qed.

(** X11.  On a line without quote characters [csvParse] splits at the
    commas and loses nothing: there is one column more than there are
    commas, and the columns joined by commas are the line. *)
Theorem csvParse_unquoted (line : str) :
  no_char dquote line ->
  join_commas (csvParse line) = line /\
  length (csvParse line)
  = S (length (List.filter (fun c => ch c comma) line)).
Proof.
  intros H. unfold csvParse.
  destruct (csvParse_loop_unquoted line [] [] H) as [-> ->]. done.
Qed.

Lemma csvParse_unquoted_witness :
  join_commas (csvParse (lit "7,t,,x y,")) = lit "7,t,,x y,".
Proof.
  refine (proj1 (csvParse_unquoted (lit "7,t,,x y,") _)).
  repeat constructor.
Defined.

(** ** Lines *)

Lemma getlines_no_nl text : Forall (no_char nl) (getlines text).
Proof.
  induction text as [|c r IH]; cbn [getlines]; [constructor|].
  destruct (ch c nl) eqn:Hc.
  - constructor; [constructor|done].
  - destruct (getlines r) as [|l ls]; [by repeat constructor|].
    inversion IH; subst. constructor; [by constructor|done].
Qed.

Lemma getlines_unlines ls :
  Forall (no_char nl) ls -> getlines (unlines ls) = ls.
Proof.
  unfold unlines. induction 1 as [|l ls Hl _ IH]; [done|].
  cbn [map concat]. rewrite <- app_assoc. cbn [app].
  by rewrite getlines_line, IH.
Qed.

(** X12.  No line [getlines] delivers holds a newline, and lines without
    newline, written out each with its newline, are read back as they
    were. *)
Theorem getlines_spec (text : str) (ls : list str) :
  Forall (no_char nl) (getlines text) /\
  (Forall (no_char nl) ls -> getlines (unlines ls) = ls).
Proof. split; [apply getlines_no_nl|apply getlines_unlines]. Qed.

(** ** Import only appends *)

Lemma import_loop_appends lines rcs st :
  exists new,
    books (import_loop lines rcs st) = books st ++ new /\
    Forall (fun b => seq st < id b) new /\
    seq st <= seq (import_loop lines rcs st) /\
    settings (import_loop lines rcs st) = settings st.
Proof.
  rewrite import_loop_kept. cbn [books seq settings].
  exists (imported_rows (seq st) (kept_lines lines rcs)).
  split; [done|]. split; [|split; [lia|done]].
  apply Forall_lookup. intros k b Hb. apply imported_rows_ids in Hb. lia.
Qed.

(** X13.  Whatever the file holds and whichever INSERTs fail, [importCsv]
    only appends: the rows the table had are still there, unchanged and in
    front, the new rows carry rowids above the old counter, and the
    settings are untouched.  A file that cannot be opened or has no line
    makes it report failure and leave the database as it was. *)
Theorem importCsv_appends (file : option str) (rcs : list sqlite_rc)
  (st : Store) :
  (exists new,
     books (snd (importCsv file rcs st)) = books st ++ new /\
     Forall (fun b => seq st < id b) new /\
     seq st <= seq (snd (importCsv file rcs st)) /\
     settings (snd (importCsv file rcs st)) = settings st) /\
  (file = None \/ (exists text, file = Some text /\ getlines text = []) ->
   importCsv file rcs st = (false, st)).
Proof.
  split.
  - unfold importCsv. destruct file as [text|].
    2:{ exists []. rewrite app_nil_r. cbn. repeat split; (done || lia || constructor). }
    destruct (getlines text) as [|line data].
    { exists []. rewrite app_nil_r. cbn. repeat split; (done || lia || constructor). }
    cbn [snd]. set (data' := if str_contains _ _ then _ else _).
    destruct (import_loop_appends data' rcs (exec BEGIN_TRANSACTION st))
      as (new & Hb & Hn & Hs & Hset).
    exists new.
    assert (Hexec : forall cmd s, books (exec cmd s) = books s /\
                                  seq (exec cmd s) = seq s /\
                                  settings (exec cmd s) = settings s).
    { intros cmd s. unfold exec. by destruct cmd, (in_txn s). }
    destruct (Hexec COMMIT (import_loop data' rcs (exec BEGIN_TRANSACTION st)))
      as (-> & -> & ->).
    destruct (Hexec BEGIN_TRANSACTION st) as (E1 & E2 & E3).
    rewrite Hb, Hset, E1, E3. rewrite E2 in Hn, Hs. done.
  - intros [-> | (text & -> & Hl)]; [done|]. unfold importCsv. by rewrite Hl.
Qed.

(** ** ISBN: shape and checksum of the result *)

Lemma weighted_sum_app w w' s t :
  weighted_sum w w' (s ++ t)
  = weighted_sum w w' s
    + (if Nat.even (length s) then weighted_sum w w' t
       else weighted_sum w' w t).
Proof.
  revert w w'. induction s as [|c s IH]; intros w w'; [done|].
  cbn [app weighted_sum length]. rewrite IH, Nat.even_succ, <- Nat.negb_even.
  destruct (Nat.even (length s)); cbn; lia.
Qed.

Lemma digit_char_value d : 0 <= d <= 9 -> code (digit_char d) - 48 = d.
Proof.
  intros H.
  assert (d = 0 \/ d = 1 \/ d = 2 \/ d = 3 \/ d = 4 \/ d = 5 \/ d = 6 \/
          d = 7 \/ d = 8 \/ d = 9) as Hd by lia.
  repeat (destruct Hd as [-> | Hd]; [reflexivity|]). by subst.
Qed.

(** X14.  The result of [normalizeIsbn] is empty or has 13 characters, each
    a digit or X, and it is again its own normal form; it is empty exactly
    when the cleaned input has neither 10 nor 13 characters. *)
Theorem normalizeIsbn_shape (raw : str) :
  (normalizeIsbn raw = [] \/
   (length (normalizeIsbn raw) = 13%nat /\
    Forall (fun c => isbn_char c = true) (normalizeIsbn raw))) /\
  normalizeIsbn (normalizeIsbn raw) = normalizeIsbn raw /\
  (normalizeIsbn raw = [] <->
   length (cleaned raw) <> 10%nat /\ length (cleaned raw) <> 13%nat).
Proof.
  split; [|split; [apply normalizeIsbn_idempotent|]];
    rewrite (normalizeIsbn_refines raw); unfold normalize_spec;
    pose proof (cleaned_isbn_chars raw) as Hc.
  - destruct (decide (length (cleaned raw) = 13%nat)) as [E|N]; [by right|].
    destruct (decide (length (cleaned raw) = 10%nat)) as [E|N']; [|by left].
    right. split.
    + rewrite !length_app, length_take, E. reflexivity.
    + apply Forall_app. split; [by repeat constructor|].
      apply Forall_app. split; [by apply Forall_take|].
      constructor; [|constructor]. apply digit_char_isbn_char.
      unfold check_digit.
      match goal with
      | |- 0 <= ?a mod 10 <= 9 => pose proof (Z.mod_pos_bound a 10); lia
      end.
  - destruct (decide (length (cleaned raw) = 13%nat)) as [E|N].
    { split; [intros H; rewrite H in E; discriminate|lia]. }
    destruct (decide (length (cleaned raw) = 10%nat)) as [E|N'].
    { split; [discriminate|lia]. }
    done.
Qed.

(** X15.  When the cleaned input has 10 characters, the 13 characters
    returned pass the ISBN-13 check: their weighted sum, weight 1 at even
    and 3 at odd positions, is a multiple of 10. *)
Theorem isbn10_check_digit_valid (raw : str) :
  length (cleaned raw) = 10%nat ->
  length (normalizeIsbn raw) = 13%nat /\
  weighted_sum 1 3 (normalizeIsbn raw) mod 10 = 0.
Proof.
  intros E. rewrite (normalizeIsbn_refines raw). unfold normalize_spec.
  rewrite decide_False by lia. rewrite decide_True by done.
  set (core := lit "978" ++ take 9 (cleaned raw)).
  assert (Hlen : length core = 12%nat).
  { unfold core. rewrite length_app, length_take, E. reflexivity. }
  split.
  { rewrite !length_app, length_take, E. reflexivity. }
  rewrite (app_assoc (lit "978")). fold core.
  rewrite weighted_sum_app, Hlen. cbn [Nat.even weighted_sum].
  assert (Hd : 0 <= check_digit core <= 9).
  { unfold check_digit.
    match goal with
    | |- 0 <= ?a mod 10 <= 9 => pose proof (Z.mod_pos_bound a 10); lia
    end. }
  rewrite (digit_char_value _ Hd). unfold check_digit.
  set (sum := weighted_sum 1 3 core).
  rewrite Z.mul_1_l, Z.add_0_r.
  rewrite Zplus_mod_idemp_r.
  rewrite <- Zplus_mod_idemp_l.
  replace (sum mod 10 + (10 - sum mod 10)) with (1 * 10) by lia.
  apply Z_mod_mult.
Qed.

Lemma isbn10_check_digit_valid_witness :
  weighted_sum 1 3 (normalizeIsbn (lit "0-306-40615-2")) mod 10 = 0.
Proof.
  refine (proj2 (isbn10_check_digit_valid (lit "0-306-40615-2") _)).
  reflexivity.
Defined.

(** ** Lookup: what it asks for and what it returns *)

Section LookupBounds.

Variable http_response : str -> option str.
Variable json_parse : str -> option json.
Variable key : option str.

(** X16.  For any input, [lookupIsbn] fetches nothing when the ISBN is
    invalid.  For a valid one it always fetches the URL of the primary
    source for the normalized ISBN, first; after it, it fetches at most the
    URL of the secondary source, and that only when the flag is set;
    nothing else is fetched.  A result it returns is never blank: its title
    or its author is not empty. *)
Theorem lookup_requests (g : bool) (raw : str) :
  let out := run_net (lookupIsbn http_response json_parse key g raw) in
  let isbn := normalizeIsbn raw in
  (isbn = [] -> out = (None, [])) /\
  (isbn <> [] ->
   snd out = [openLibraryUrl isbn] \/
   (g = true /\
    snd out = [openLibraryUrl isbn; googleBooksUrl key isbn])) /\
  (forall r, fst out = Some r -> lr_title r <> [] \/ lr_author r <> []).
Proof.
  intros out isbn. unfold out, run_net, lookupIsbn. fold isbn.
  destruct isbn as [|c isbn'] eqn:Hisbn.
  { cbn. split; [done|]. split; [done|]. intros r H. discriminate. }
  cbn [nonempty negb].
  unfold net_bind, primary_stage, secondary_stage, net_bind, httpGet, net_ret.
  cbn [app].
  split; [discriminate|].
  destruct (http_response (openLibraryUrl (c :: isbn')) ≫= openLibraryRecord json_parse)
    as [r1|] eqn:H1.
  - unfold accept_primary. destruct (nonempty (lr_title r1)) eqn:Ht.
    + cbn. split; [by left|]. intros r [= <-]. left.
      by apply nonempty_spec.
    + destruct g; cbn; [|split; [by left|discriminate]].
      split; [by right|].
      destruct (_ ≫= googleBooksRecord json_parse) as [r2|]; [|discriminate].
      unfold accept_secondary. destruct (nonempty (lr_title r2)) eqn:Ht2; cbn.
      * intros r [= <-]. left. by apply nonempty_spec.
      * destruct (nonempty (lr_author r2)) eqn:Ha2; [|discriminate].
        intros r [= <-]. right. by apply nonempty_spec.
  - destruct g; cbn; [|split; [by left|discriminate]].
    split; [by right|].
    destruct (_ ≫= googleBooksRecord json_parse) as [r2|]; [|discriminate].
    unfold accept_secondary. destruct (nonempty (lr_title r2)) eqn:Ht2; cbn.
    + intros r [= <-]. left. by apply nonempty_spec.
    + destruct (nonempty (lr_author r2)) eqn:Ha2; [|discriminate].
      intros r [= <-]. right. by apply nonempty_spec.
Qed.

(** ** Start-up *)

(** Every URL of a log is one of the two probes. *)
Ltac urls_ok :=
  repeat (apply List.Forall_cons; [first [by left | by right]|]);
  apply List.Forall_nil.

(** X17.  The start-up sequence lets the run use the secondary source only
    when a key is set, the internet probe answers and the trial request
    returns JSON without an [error] member.  Without a key the readiness
    URL is never fetched, whatever the network answers; without internet
    only the probe is fetched and the run goes on with the source off. *)
Theorem startup_flag (input : list str) :
  let out := run_net (startup http_response json_parse key input) in
  (fst (fst out) = Some true ->
   exists k body j,
     key = Some k /\ k <> [] /\
     http_response probe_url <> None /\
     http_response (readiness_url k) = Some body /\
     json_parse body = Some j /\ j_contains j "error" = false) /\
  (googleKeyPresent key = false ->
   fst (fst out) <> Some true /\
   Forall (fun u => u = probe_url \/ u = openLibraryHome) (snd out)) /\
  (http_response probe_url = None ->
   out = (Some false, input, [probe_url])).
Proof.
  intros out. unfold out, run_net, startup, internetOk, openLibraryOk,
    googleBooksReady, googleKeyPresent, net_bind, httpGet, net_ret.
  cbn [app].
  destruct (http_response probe_url) as [p|] eqn:Hp; cbn [andb negb].
  2:{ split; [discriminate|]. split; [|done]. intros _.
      split; [discriminate|]. urls_ok. }
  split; [|split; [|discriminate]].
  - destruct key as [[|c k]|]; cbn [app].
    + destruct (http_response openLibraryHome); cbn;
        [destruct input as [|[|a ?] ?]; cbn; try destruct (ch a "1")|]; discriminate.
    + destruct (http_response (readiness_url (c :: k))) as [body|] eqn:Hb.
      * destruct (json_parse body) as [j|] eqn:Hj.
        -- destruct (j_contains j "error") eqn:He; cbn [negb].
           ++ destruct (http_response openLibraryHome); cbn;
                [destruct input as [|[|a ?] ?]; cbn; try destruct (ch a "1")|];
                discriminate.
           ++ intros _. exists (c :: k), body, j. repeat split; done.
        -- destruct (http_response openLibraryHome); cbn;
             [destruct input as [|[|a ?] ?]; cbn; try destruct (ch a "1")|];
             discriminate.
      * destruct (http_response openLibraryHome); cbn;
          [destruct input as [|[|a ?] ?]; cbn; try destruct (ch a "1")|];
          discriminate.
    + destruct (http_response openLibraryHome); cbn;
        [destruct input as [|[|a ?] ?]; cbn; try destruct (ch a "1")|]; discriminate.
  - intros Hk. destruct key as [[|c k]|]; [|discriminate|];
      (destruct (http_response openLibraryHome); cbn;
       [destruct input as [|[|a ?] ?]; cbn; try destruct (ch a "1")|];
       (split; [discriminate|]); urls_ok).
Qed.

End LookupBounds.

(** ** Prompts and console flows *)

Lemma wrap32_range z : is_int (wrap32 z).
Proof.
  unfold is_int, wrap32, INT_MIN, INT_MAX.
  pose proof (Z.mod_pos_bound (z + 2147483648) 4294967296 ltac:(lia)). lia.
Qed.

Lemma stoi_range s v : stoi s = Some v -> is_int v.
Proof.
  unfold stoi.
  destruct (match skip_space s with [] => _ | _ :: _ => _ end) as [neg s2].
  destruct (take_digits s2) as [|c ds]; [done|].
  destruct (is_intb _) eqn:E; [|done]. intros [= <-]. by apply is_intb_spec.
Qed.

Lemma askInt_range input lo hi :
  lo <= hi -> lo <= fst (askInt input lo hi) <= hi.
Proof.
  intros H. induction input as [|s rest IH]; cbn [askInt]; [cbn; lia|].
  destruct (stoi s) as [v|]; [|done].
  destruct (Z.ltb_spec v lo); [done|]. destruct (Z.ltb_spec hi v); [done|].
  cbn. lia.
Qed.

Lemma askInt_suffix input lo hi :
  exists used, input = used ++ snd (askInt input lo hi).
Proof.
  induction input as [|s rest [used IH]]; cbn [askInt]; [by exists []|].
  destruct (stoi s) as [v|]; [destruct ((v <? lo) || (hi <? v))|].
  - exists (s :: used). cbn. by rewrite <- IH.
  - by exists [s].
  - exists (s :: used). cbn. by rewrite <- IH.
Qed.



Lemma get_updateProgress bid p s st b :
  get SQLITE_OK bid st = Some b ->
  get SQLITE_OK bid (snd (updateProgress SQLITE_OK bid p s st))
  = Some (mkBook (id b) (title b) (author b) (totalPages b)
                 (wrap32 p) (wrap32 s) (isbn b)).
Proof.
  unfold get. intros Hget.
  destruct (List.find _ (books st)) as [r|] eqn:Hfind; [|done].
  cbn in Hget. injection Hget as <-.
  cbn [snd updateProgress set_books books].
  rewrite find_map_same_id by (intros x; by destruct (id x =? bid)).
  rewrite Hfind. cbn. by rewrite (find_id_eq _ _ _ Hfind), Z.eqb_refl.
Qed.

Lemma get_updateStatus bid s st b :
  get SQLITE_OK bid st = Some b ->
  get SQLITE_OK bid (snd (updateStatus SQLITE_OK bid s st))
  = Some (mkBook (id b) (title b) (author b) (totalPages b)
                 (if s =? 2 then totalPages b else currentPage b)
                 (wrap32 s) (isbn b)).
Proof.
  unfold get. intros Hget.
  destruct (List.find _ (books st)) as [r|] eqn:Hfind; [|done].
  cbn in Hget. injection Hget as <-.
  cbn [snd updateStatus set_books books].
  rewrite find_map_same_id by (intros x; by destruct (id x =? bid)).
  rewrite Hfind. cbn. rewrite (find_id_eq _ _ _ Hfind), Z.eqb_refl.
  unfold read_row. cbn. by destruct (s =? 2).
Qed.

Lemma get_total_range rc bid st b :
  get rc bid st = Some b -> is_int (totalPages b).
Proof.
  unfold get. destruct rc; [|done].
  destruct (List.find _ _); [|done]. intros [= <-]. apply wrap32_range.
Qed.

(** X19.  When the id typed into [updatePageFlow] is in the table and both
    statements succeed, the flow reports "Updated." and leaves that record
    with its other fields as they were, the current page within
    [0, max 0 totalPages], and the status that goes with the page: Finished
    exactly when a positive total is reached, To-Read exactly at page 0,
    Reading otherwise.  A Finished record is then at its last page. *)
Theorem updatePageFlow_coupling (input : list str) (db : Store) (ob : Book) :
  get SQLITE_OK (fst (askInt input 1 INT_MAX)) db = Some ob ->
  let bid := fst (askInt input 1 INT_MAX) in
  let out := updatePageFlow SQLITE_OK SQLITE_OK input db in
  fst (fst out) = lit "Updated." /\
  exists page s,
    get SQLITE_OK bid (snd out)
    = Some (mkBook (id ob) (title ob) (author ob) (totalPages ob) page s
                   (isbn ob)) /\
    0 <= page <= Z.max 0 (totalPages ob) /\
    (s = 2 <-> 0 < totalPages ob /\ page = totalPages ob) /\
    (s = 0 <-> page = 0) /\
    (s = 0 \/ s = 1 \/ s = 2).
Proof.
  intros Hget bid out. unfold out, updatePageFlow.
  destruct (askInt input 1 INT_MAX) as [bid' input1] eqn:E1.
  cbn [fst] in *. subst bid. rewrite Hget.
  pose proof (get_total_range _ _ _ _ Hget) as Htot.
  pose proof (askInt_range input1 0 (std_max 0 (totalPages ob))) as Hpage.
  pose proof (std_max_spec 0 (totalPages ob)) as Hm.
  specialize (Hpage ltac:(lia)).
  destruct (askInt input1 0 (std_max 0 (totalPages ob))) as [page input2] eqn:E2.
  cbn [fst] in Hpage. rewrite Hm in Hpage.
  pose proof (get_updateProgress bid' page (page_status (totalPages ob) page) db ob Hget)
    as Hafter.
  destruct (updateProgress SQLITE_OK bid' page _ db) as [ok db'] eqn:E3.
  cbn [updateProgress] in E3. injection E3 as <- <-.
  cbn [fst snd] in *. split; [done|].
  exists page, (page_status (totalPages ob) page).
  assert (Hs : page_status (totalPages ob) page = 0 \/
               page_status (totalPages ob) page = 1 \/
               page_status (totalPages ob) page = 2).
  { unfold page_status. destruct (_ && _); [auto|]. destruct (0 <? page); auto. }
  split.
  { rewrite Hafter. unfold is_int, INT_MIN, INT_MAX in Htot.
    rewrite (wrap32_small page) by (unfold is_int, INT_MIN, INT_MAX; lia).
    rewrite (wrap32_small (page_status _ _))
      by (unfold is_int, INT_MIN, INT_MAX; lia).
    done. }
  split; [done|].
  unfold page_status, status_code in *.
  destruct (Z.ltb_spec 0 (totalPages ob)); destruct (Z.leb_spec (totalPages ob) page);
    destruct (Z.ltb_spec 0 page); cbn [andb]; repeat split; intros; lia.
Qed.

Lemma updatePageFlow_coupling_witness :
  fst (fst (updatePageFlow SQLITE_OK SQLITE_OK [lit "1"; lit "310"] shelf))
  = lit "Updated.".
Proof.
  refine (proj1 (updatePageFlow_coupling [lit "1"; lit "310"] shelf
                   (with_id 1 the_hobbit) _)).
  reflexivity.
Defined.

(** X20.  When the id typed into [markStatusFlow] is in the table and both
    statements succeed, the flow reports "Status updated." and leaves that
    record with a status within [0, 2]; with Finished the current page is
    the total, with another status it is as it was; the other fields are
    unchanged. *)
Theorem markStatusFlow_coupling (input : list str) (db : Store) (ob : Book) :
  get SQLITE_OK (fst (askInt input 1 INT_MAX)) db = Some ob ->
  let bid := fst (askInt input 1 INT_MAX) in
  let out := markStatusFlow SQLITE_OK SQLITE_OK input db in
  fst (fst out) = lit "Status updated." /\
  exists s,
    0 <= s <= 2 /\
    get SQLITE_OK bid (snd out)
    = Some (mkBook (id ob) (title ob) (author ob) (totalPages ob)
                   (if decide (s = 2) then totalPages ob else currentPage ob)
                   s (isbn ob)).
Proof.
  intros Hget bid out. unfold out, markStatusFlow.
  destruct (askInt input 1 INT_MAX) as [bid' input1] eqn:E1.
  cbn [fst] in *. subst bid. rewrite Hget.
  pose proof (askInt_range input1 0 2 ltac:(lia)) as Hs.
  destruct (askInt input1 0 2) as [s input2] eqn:E2. cbn [fst] in Hs.
  pose proof (get_updateStatus bid' s db ob Hget) as Hafter.
  destruct (updateStatus SQLITE_OK bid' s db) as [ok db'] eqn:E3.
  cbn [updateStatus] in E3. injection E3 as <- <-.
  cbn [fst snd] in *. split; [done|]. exists s. split; [done|].
  rewrite Hafter, (wrap32_small s) by (unfold is_int, INT_MIN, INT_MAX; lia).
  destruct (decide (s = 2)) as [->|Hne]; [done|].
  by rewrite (proj2 (Z.eqb_neq s 2) Hne).
Qed.

Lemma markStatusFlow_coupling_witness :
  fst (fst (markStatusFlow SQLITE_OK SQLITE_OK [lit "2"; lit "2"] shelf))
  = lit "Status updated.".
Proof.
  refine (proj1 (markStatusFlow_coupling [lit "2"; lit "2"] shelf
                   (with_id 2 big_book) _)).
  reflexivity.
Defined.

(** X21.  [deleteFlow] reports "Deleted." whenever the DELETE statement
    runs, whether or not the id typed was in the table; afterwards [get] of
    that id finds nothing and every other id is as before.  It reports
    "Not found." only when the statement fails, and then the database is
    unchanged. *)
Theorem deleteFlow_spec (input : list str) (db : Store) (other : Z) :
  let bid := fst (askInt input 1 INT_MAX) in
  let out := deleteFlow SQLITE_OK input db in
  fst (fst out) = lit "Deleted." /\
  get SQLITE_OK bid (snd out) = None /\
  (other <> bid -> get SQLITE_OK other (snd out) = get SQLITE_OK other db) /\
  deleteFlow SQLITE_ERROR input db
  = (lit "Not found.", snd (askInt input 1 INT_MAX), db).
Proof.
  intros bid out. unfold out, bid, deleteFlow.
  destruct (askInt input 1 INT_MAX) as [bid' input1].
  cbn [remove fst snd]. split; [done|].
  unfold get. cbn [set_books books].
  split; [by rewrite find_id_filter_same|]. split; [|done].
  intros Hne. by rewrite find_id_filter_other.
Qed.

(** ** Status names *)

Lemma str_eqb_eq a b : str_eqb a b = true <-> a = b.
Proof.
  revert b. induction a as [|c a IH]; intros [|d b]; cbn; try done.
  rewrite andb_true_iff, IH. unfold ch. rewrite Ascii.eqb_eq.
  split; [by intros [-> ->]|by intros [= -> ->]].
Qed.

(** X22.  [strToStatus] reads back every name [statusToStr] writes and
    every status number, does not mind the case of its input, and reads
    nothing from the empty line. *)
Theorem strToStatus_spec (s : Status) (t : str) :
  strToStatus (statusToStr s) = Some s /\
  strToStatus (to_string (status_code s)) = Some s /\
  strToStatus (lower t) = strToStatus t /\
  strToStatus [] = None.
Proof.
  split; [by destruct s|]. split; [by destruct s|]. split; [|done].
  unfold strToStatus. by rewrite lower_idempotent.
Qed.

(** ** Days to finish, within the range of [int] *)

(** X23.  When the rate is positive, pages are left and
    [remaining + dailyRate] fits an [int], [daysToFinish] answers a number
    of days [d >= 1] such that [d] days at the rate cover the remaining
    pages and [d - 1] days do not. *)
Theorem daysToFinish_bracket (b : Book) (dailyRate : Z) :
  0 < dailyRate -> currentPage b < totalPages b ->
  INT_MIN <= currentPage b ->
  totalPages b - currentPage b + dailyRate <= INT_MAX ->
  exists d,
    daysToFinish b dailyRate = Some d /\ 1 <= d /\
    dailyRate * (d - 1) < totalPages b - currentPage b <= dailyRate * d.
Proof.
  intros Hr Hlt Hlo Hhi.
  exists (ceil_div (totalPages b - currentPage b) dailyRate).
  split; [by apply daysToFinish_ceil|].
  pose proof (ceil_div_spec (totalPages b - currentPage b) dailyRate Hr) as H.
  split; [nia|done].
Qed.

Lemma daysToFinish_bracket_witness :
  exists d,
    daysToFinish (with_id 1 the_hobbit) 15 = Some d /\ 1 <= d /\
    15 * (d - 1) < 310 - 150 <= 15 * d.
Proof.
  refine (daysToFinish_bracket (with_id 1 the_hobbit) 15 _ _ _ _);
    unfold INT_MIN, INT_MAX; cbn; lia.
Defined.

(** ** Reading numbers *)

Lemma stoi_surrounded z ws rest :
  is_int z -> Forall (fun c => isspace c = true) ws -> stops rest ->
  stoi (ws ++ to_string z ++ rest) = Some z.
Proof.
  intros Hz Hws Hr. pose proof (of_to z) as E.
  destruct (to_int_not_nil z) as [Hp Hn].
  unfold to_string. destruct (Z.to_int z) as [d|d] eqn:Hd; cbn in E.
  - rewrite stoi_digits_rest; try done.
    + by rewrite digits_value_uint, E, is_intb_true.
    + intros H%uint_chars_nil. congruence.
    + apply uint_chars_digits.
  - rewrite stoi_minus_digits_rest; try done.
    + by rewrite digits_value_uint, E, is_intb_true.
    + intros H%uint_chars_nil. congruence.
    + apply uint_chars_digits.
Qed.

(** X24.  [strToIntSafe] always answers an [int]; it reads the decimal
    text of any [int] back as that number, also after white space and
    before text that does not go on with a digit. *)
Theorem strToIntSafe_spec (s : str) (z : Z) (ws rest : str) :
  is_int z -> Forall (fun c => isspace c = true) ws -> stops rest ->
  is_int (strToIntSafe s) /\
  strToIntSafe (to_string z) = z /\
  strToIntSafe (ws ++ to_string z ++ rest) = z.
Proof.
  intros Hz Hws Hr. unfold strToIntSafe. split; [|split].
  - destruct (stoi s) as [v|] eqn:E; cbn.
    + by apply (stoi_range s).
    + unfold is_int, INT_MIN, INT_MAX. lia.
  - by rewrite stoi_to_string.
  - by rewrite stoi_surrounded.
Qed.

Lemma strToIntSafe_spec_witness :
  strToIntSafe (lit "  " ++ to_string (-42) ++ lit " pages") = -42.
Proof.
  refine (proj2 (proj2 (strToIntSafe_spec [] (-42) (lit "  ") (lit " pages") _ _ _))).
  - unfold is_int, INT_MIN, INT_MAX; lia.
  - repeat constructor.
  - reflexivity.
Defined.

(** ** Export and import of any numbers *)

Lemma text_ok_spec b :
  text_ok b = true ->
  (no_char zero (title b) /\ no_char nl (title b)) /\
  (no_char zero (author b) /\ no_char nl (author b)) /\
  (no_char zero (isbn b) /\ no_char nl (isbn b)).
Proof.
  unfold text_ok. rewrite !andb_true_iff, !free_of_no_char.
  intros H. destruct_and!. done.
Qed.

Lemma read_row_text r :
  text_ok r = true ->
  text_ok (read_row r) = true /\
  is_int (totalPages (read_row r)) /\ is_int (currentPage (read_row r)) /\
  is_int (status (read_row r)).
Proof.
  intros H. pose proof H as ((? & _) & (? & _) & (? & _))%text_ok_spec.
  split; [|repeat split; apply wrap32_range].
  unfold text_ok, read_row in *. cbn. by rewrite !c_str_no_nul.
Qed.

Lemma list_books_text st :
  Forall (fun b => text_ok b = true) (books st) ->
  Forall (fun b => text_ok b = true /\ is_int (totalPages b) /\
                   is_int (currentPage b) /\ is_int (status b))
         (list_books SQLITE_OK None st).
Proof.
  intros H. rewrite list_books_all. apply Forall_map.
  eapply Forall_impl; [apply order_by_id_Forall, H|].
  intros r Hr. cbn beta in *. by apply read_row_text.
Qed.

Lemma row_book_csv_line_any b :
  is_int (totalPages b) -> is_int (currentPage b) -> is_int (status b) ->
  reimported b (row_book (csvParse (csv_line b))).
Proof.
  intros Ht Hc Hs. rewrite csvParse_csv_line.
  unfold row_book, strToIntSafe, reimported. cbn [nth].
  rewrite !stoi_to_string by done. cbn [default from_option].
  unfold Datatypes.id. cbn.
  rewrite !std_max_spec, !std_clamp_spec by lia. done.
Qed.

Lemma imported_rows_csv_lines_any last rows :
  Forall (fun b => text_ok b = true /\ is_int (totalPages b) /\
                   is_int (currentPage b) /\ is_int (status b)) rows ->
  Forall2 reimported rows (imported_rows last (map csv_line rows)).
Proof.
  intros H. revert last.
  induction H as [|b rows (Hb & Ht & Hc & Hs) _ IH]; intros last;
    cbn [map imported_rows]; constructor; [|apply IH].
  destruct (row_book_csv_line_any b Ht Hc Hs) as (E1 & E2 & E3 & E4 & E5 & E6).
  apply text_ok_spec in Hb as ((? & _) & (? & _) & (? & _)).
  set (rb := row_book _) in *. clearbody rb.
  unfold reimported. cbn. rewrite E1, E2, E3, !c_str_no_nul by done.
  repeat split; done.
Qed.

(** X25.  For a store whose text holds no NUL and no line break, whatever
    its numbers, exporting and importing into a store with no record
    succeeds and yields as many records, in the order of [list]: each with
    the title, author and ISBN of its original, the total pages raised to
    at least 0, the current page clamped to [0, totalPages] and the status
    clamped to [0, 2]. *)
Theorem export_import_clamped (st st0 : Store) :
  Forall (fun b => text_ok b = true) (books st) ->
  books st0 = [] ->
  let out := importCsv (Some (exportCsv SQLITE_OK st)) [] st0 in
  fst out = true /\
  Forall2 reimported (list_books SQLITE_OK None st) (books (snd out)) /\
  length (books (snd out)) = length (books st).
Proof.
  intros Hst Hempty out.
  pose proof (list_books_text st Hst) as Hrows.
  assert (Hlines : getlines (exportCsv SQLITE_OK st)
                   = csv_header :: map csv_line (list_books SQLITE_OK None st)).
  { unfold exportCsv. rewrite export_acc, <- app_assoc. cbn [app].
    rewrite getlines_line by (by repeat constructor).
    rewrite getlines_rows; [done|].
    eapply Forall_impl; [exact Hrows|]. intros b [Hb _].
    apply text_ok_spec in Hb as ((_ & ?) & (_ & ?) & (_ & ?)).
    by apply csv_line_no_nl. }
  assert (Hdata : List.filter has_7_columns (data_lines (exportCsv SQLITE_OK st))
                  = map csv_line (list_books SQLITE_OK None st)).
  { unfold data_lines. rewrite Hlines.
    change (str_contains (lit "id,") csv_header) with true. cbn match.
    apply filter_all, Forall_map, Forall_true. intros b.
    apply has_7_columns_csv_line. }
  unfold out. rewrite importCsv_ok by (by rewrite Hlines).
  rewrite Hdata. cbn [fst snd books]. rewrite Hempty. cbn [app].
  split; [done|]. split; [by apply imported_rows_csv_lines_any|].
  pose proof (imported_rows_csv_lines_any (seq st0) _ Hrows) as H2.
  rewrite <- (Forall2_length _ _ _ H2), list_books_all, length_map.
  apply Permutation_length, order_by_id_perm.
Qed.

Lemma export_import_clamped_witness :
  Forall2 reimported
    (list_books SQLITE_OK None overdue_shelf)
    (books (snd (importCsv (Some (exportCsv SQLITE_OK overdue_shelf)) []
                   empty_store))).
Proof.
  refine (proj1 (proj2 (export_import_clamped overdue_shelf empty_store _ _))).
  - repeat constructor.
  - reflexivity.
Defined.

(** ** Search with a query free of wildcards *)


